(** * Pronunciation Audio Service: a shallow embedding of [server.js]

    The service keeps three module-level [Map]s ([audioCache],
    [preloadQueue], [requestMetrics]) and serves them through Express
    handlers.  The embedding follows the file function by function:

    - JavaScript values are the inductive [value], strings are their
      UTF-16 code units, and a [Map] is the list of its entries in
      insertion order;
    - a handler is a computation in [M], which threads the state and
      may throw, so that [try]/[catch] is [try_catch];
    - a [preloadData] object lives on a heap, because the registry and
      the callback given to [setImmediate] share it;
    - the calls into Node's libraries ([crypto], [URLSearchParams],
      [Date.prototype.toISOString]) are the variables of [Section
      Service], and the first two may throw; the readings of the clock
      and the result of [crypto.randomUUID] are arguments of the handler
      that makes them.

    [console.log] and the [/cache/stats] route, which only reads, are
    left out. *)

From Stdlib Require Import String Ascii DecimalString ZArith Bool Lia List.
Import ListNotations.
Open Scope Z_scope.
Set Warnings "-register-all".

(** ** JavaScript strings and values *)

(** A string is its sequence of UTF-16 code units, which is what
    [length], the regular expressions without the [u] flag and [===]
    all work on. *)
Definition jsstring := list Z.

Definition js (s : string) : jsstring :=
  map (fun a => Z.of_N (N_of_ascii a)) (list_ascii_of_string s).

Definition jsstring_eq_dec : forall a b : jsstring, {a = b} + {a <> b} :=
  list_eq_dec Z.eq_dec.

Definition jsstring_eqb (a b : jsstring) : bool :=
  if jsstring_eq_dec a b then true else false.

(** The values a parsed JSON body, a cache record or a response can
    hold.  [VNum n] is the number an integer literal [n] denotes, that
    is the double nearest to [n]: every number met by the handlers is a
    length or a difference of clock readings, and a number received in
    a request is rejected like any other non-string. *)
Inductive value : Type :=
| VUndefined
| VNull
| VBool (b : bool)
| VNum (n : Z)
| VStr (s : jsstring)
| VArr (elems : list value)
| VObj (props : list (jsstring * value)).

(** A computation of the language either returns or throws an error,
    of which the handlers only read the [message]. *)
Inductive result (A : Type) : Type :=
| Ok (a : A)
| Throw (message : jsstring).
Arguments Ok {A} a.
Arguments Throw {A} message.

(** *** [Number.prototype.toString] on integers *)

Definition digits (n : Z) : jsstring :=
  js (NilZero.string_of_int (Z.to_int n)).

(** The double nearest to [n >= 0], ties to the even significand;
    [None] is [Infinity]. *)
Definition nearest_double (n : Z) : option Z :=
  let b := Z.log2 n + 1 in
  if b <=? 53 then Some n
  else
    let p := b - 53 in
    let q := Z.shiftr n p in
    let r := n - Z.shiftl q p in
    let half := Z.shiftl 1 (p - 1) in
    let q := if (half <? r) || ((r =? half) && Z.odd q) then q + 1 else q in
    let v := Z.shiftl q p in
    if Z.shiftl 1 1024 <=? v then None else Some v.

Definition rounds_to (v c : Z) : bool :=
  match nearest_double c with
  | Some w => w =? v
  | None => false
  end.

(** The integer with the fewest significant digits that still denotes
    the double [v], which has [D] digits; of two such, the nearer to
    [v]. [k] is the number of significant digits tried. *)
Fixpoint shortest (fuel : nat) (v D k : Z) : Z :=
  match fuel with
  | O => v
  | S fuel' =>
      if D <=? k then v
      else
        let p := 10 ^ (D - k) in
        let lo := v / p in
        let below := lo * p in
        let above := (lo + 1) * p in
        match rounds_to v below, rounds_to v above with
        | true, true =>
            if v - below <? above - v then below
            else if above - v <? v - below then above
            else if Z.even lo then below else above
        | true, false => below
        | false, true => above
        | false, false => shortest fuel' v D (k + 1)
        end
  end.

Fixpoint strip_zeros (reversed : jsstring) : jsstring :=
  match reversed with
  | 48 :: rest => strip_zeros rest
  | _ => reversed
  end.

(** A double beyond [2^53]: its shortest digits, padded with zeros up
    to 21 digits and in exponent form from there on. *)
Definition render_double (v : Z) : jsstring :=
  let printed := shortest 17 v (Z.of_nat (length (digits v))) 1 in
  let n := Z.of_nat (length (digits printed)) in
  if n <=? 21 then digits printed
  else
    match rev (strip_zeros (rev (digits printed))) with
    | [] => []
    | [d] => [d] ++ js "e+" ++ digits (n - 1)
    | d :: rest => [d] ++ js "." ++ rest ++ js "e+" ++ digits (n - 1)
    end.

Definition Number_toString (n : Z) : jsstring :=
  let render m :=
    if m <=? 2 ^ 53 then digits m
    else match nearest_double m with
         | Some v => render_double v
         | None => js "Infinity"
         end in
  if n <? 0 then js "-" ++ render (- n) else render n.

(** [Array.prototype.join(",")], given the rendering of the elements. *)
Fixpoint join_comma (parts : list jsstring) : jsstring :=
  match parts with
  | [] => []
  | [p] => p
  | p :: rest => p ++ js "," ++ join_comma rest
  end.

(** Property lookup on an object literal. *)
Fixpoint prop (name : jsstring) (props : list (jsstring * value)) : option value :=
  match props with
  | [] => None
  | (k, v) :: rest => if jsstring_eqb name k then Some v else prop name rest
  end.

(** The conversion a template literal applies to an interpolated value.
    An array is joined; an object parsed from JSON inherits
    [Object.prototype.toString] unless it has a [toString] property of
    its own, which is never callable: then neither it nor [valueOf]
    gives a primitive and the conversion throws a [TypeError]. *)
Fixpoint ToString (v : value) : result jsstring :=
  match v with
  | VUndefined => Ok (js "undefined")
  | VNull => Ok (js "null")
  | VBool true => Ok (js "true")
  | VBool false => Ok (js "false")
  | VNum n => Ok (Number_toString n)
  | VStr s => Ok s
  | VArr elems =>
      match
        (fix join (l : list value) : result (list jsstring) :=
           match l with
           | [] => Ok []
           | e :: rest =>
               match (match e with
                      | VUndefined | VNull => Ok []
                      | _ => ToString e
                      end) with
               | Ok part =>
                   match join rest with
                   | Ok parts => Ok (part :: parts)
                   | Throw message => Throw message
                   end
               | Throw message => Throw message
               end
           end) elems
      with
      | Ok parts => Ok (join_comma parts)
      | Throw message => Throw message
      end
  | VObj props =>
      match prop (js "toString") props with
      | Some _ => Throw (js "Cannot convert object to primitive value")
      | None => Ok (js "[object Object]")
      end
  end.

(** [!v] *)
Definition falsy (v : value) : bool :=
  match v with
  | VUndefined | VNull | VBool false | VNum 0 | VStr [] => true
  | _ => false
  end.

(** [typeof v === 'string'] *)
Definition typeof_string (v : value) : bool :=
  match v with VStr _ => true | _ => false end.

(** [xs.includes(v)] for an array of strings [xs]. *)
Definition includes (xs : list jsstring) (v : value) : bool :=
  match v with
  | VStr s => existsb (jsstring_eqb s) xs
  | _ => false
  end.

(** ** [Map]: entries in insertion order *)

Module JsMap.
Section Ops.
Context {V : Type}.

Definition t := list (jsstring * V).

Definition empty : t := [].

Definition size (m : t) : nat := length m.

Definition keys (m : t) : list jsstring := map fst m.

Fixpoint get (k : jsstring) (m : t) : option V :=
  match m with
  | [] => None
  | (k', v) :: rest => if jsstring_eqb k k' then Some v else get k rest
  end.

Definition has (k : jsstring) (m : t) : bool :=
  match get k m with Some _ => true | None => false end.

(** [set] on a key already present replaces the value where the entry
    stands; a new key is appended. *)
Fixpoint set (k : jsstring) (v : V) (m : t) : t :=
  match m with
  | [] => [(k, v)]
  | (k', v') :: rest =>
      if jsstring_eqb k k' then (k', v) :: rest else (k', v') :: set k v rest
  end.

Fixpoint delete (k : jsstring) (m : t) : t :=
  match m with
  | [] => []
  | (k', v') :: rest =>
      if jsstring_eqb k k' then rest else (k', v') :: delete k rest
  end.

(** Keys are pairwise distinct: what every [Map] satisfies. *)
Definition wf (m : t) : Prop := NoDup (keys m).
End Ops.
Arguments t : clear implicits.
End JsMap.

(** ** Data model *)

(** [AUDIO_CONFIG] *)
Record config := mkConfig {
  TTS_BASE_URL : jsstring;
  MAX_CACHE_SIZE : nat;
  PRELOAD_TIMEOUT : Z;
  SUPPORTED_LANGUAGES : list jsstring;
  DEFAULT_LANGUAGE : jsstring
}.

Definition AUDIO_CONFIG : config := {|
  TTS_BASE_URL := js "https://translate.google.com/translate_tts";
  MAX_CACHE_SIZE := 1000;
  PRELOAD_TIMEOUT := 5000;
  SUPPORTED_LANGUAGES := [js "zh-CN"; js "zh-TW"];
  DEFAULT_LANGUAGE := js "zh-CN"
|}.

(** The object stored in [audioCache] under a cache key. *)
Module CacheRecord.
Record t := mk {
  audioUrl : jsstring;
  text : value;
  language : value;
  timestamp : jsstring
}.
End CacheRecord.

(** One element of a preload job's [results]. *)
Module ResultEntry.
Record t := mk {
  text : value;
  audioUrl : jsstring;
  cached : bool
}.

Definition to_value (e : t) : value :=
  VObj [(js "text", text e); (js "audioUrl", VStr (audioUrl e));
        (js "cached", VBool (cached e))].
End ResultEntry.

(** The strings a job's [status] property takes. *)
Inductive job_status := processing | completed | failed.

Definition status_string (st : job_status) : jsstring :=
  match st with
  | processing => js "processing"
  | completed => js "completed"
  | failed => js "failed"
  end.

Definition terminal (st : job_status) : bool :=
  match st with processing => false | completed | failed => true end.

(** The [preloadData] object of one preload request.  The properties
    [completedTime], [processingDuration] and [error] do not exist until
    the resolution pass assigns them. *)
Module PreloadData.
Record t := mk {
  id : jsstring;
  texts : list value;
  language : value;
  status : job_status;
  results : list ResultEntry.t;
  startTime : Z;
  timestamp : jsstring;
  completedTime : option Z;
  processingDuration : option Z;
  error : option jsstring
}.

(** The four assignments that end a successful pass. *)
Definition complete (rs : list ResultEntry.t) (now : Z) (d : t) : t :=
  mk (id d) (texts d) (language d) completed rs (startTime d) (timestamp d)
     (Some now) (Some (now - startTime d)) (error d).

(** The two assignments of the [catch] block. *)
Definition fail (message : jsstring) (d : t) : t :=
  mk (id d) (texts d) (language d) failed (results d) (startTime d)
     (timestamp d) (completedTime d) (processingDuration d) (Some message).
End PreloadData.

(** A [preloadData] object is shared by [preloadQueue] and by the
    closure given to [setImmediate]; both hold a reference into [heap]. *)
Definition ref := nat.

(** A callback queued by [setImmediate], with the variables it closes over. *)
Record immediate := mkImmediate {
  imm_texts : list value;
  imm_language : value;
  imm_preloadData : ref
}.

Record state := mkState {
  audioCache : JsMap.t CacheRecord.t;
  preloadQueue : JsMap.t ref;
  requestMetrics : JsMap.t (list Z);
  heap : ref -> PreloadData.t;
  allocated : nat;
  immediates : list immediate
}.

(** The content of a reference nothing was allocated at; never read. *)
Definition blank : PreloadData.t :=
  PreloadData.mk [] [] VUndefined processing [] 0 [] None None None.

Definition initial : state := mkState [] [] [] (fun _ => blank) 0 [].

Definition with_audioCache (c : JsMap.t CacheRecord.t) (s : state) : state :=
  mkState c (preloadQueue s) (requestMetrics s) (heap s) (allocated s)
          (immediates s).

Definition with_preloadQueue (q : JsMap.t ref) (s : state) : state :=
  mkState (audioCache s) q (requestMetrics s) (heap s) (allocated s)
          (immediates s).

Definition with_requestMetrics (m : JsMap.t (list Z)) (s : state) : state :=
  mkState (audioCache s) (preloadQueue s) m (heap s) (allocated s)
          (immediates s).

Definition with_immediates (l : list immediate) (s : state) : state :=
  mkState (audioCache s) (preloadQueue s) (requestMetrics s) (heap s)
          (allocated s) l.

(** Assignment through a reference. *)
Definition heap_update (r : ref) (f : PreloadData.t -> PreloadData.t)
    (s : state) : state :=
  mkState (audioCache s) (preloadQueue s) (requestMetrics s)
          (fun r' => if Nat.eqb r' r then f (heap s r) else heap s r')
          (allocated s) (immediates s).

(** A new object; its reference is the number of objects made before. *)
Definition heap_alloc (d : PreloadData.t) (s : state) : state :=
  mkState (audioCache s) (preloadQueue s) (requestMetrics s)
          (fun r' => if Nat.eqb r' (allocated s) then d else heap s r')
          (S (allocated s)) (immediates s).

(** ** Computations that read and write the state and may throw *)

Definition M (A : Type) : Type := state -> result A * state.

Definition ret {A} (a : A) : M A := fun s => (Ok a, s).

Definition bind {A B} (c : M A) (k : A -> M B) : M B :=
  fun s => match c s with
           | (Ok a, s') => k a s'
           | (Throw e, s') => (Throw e, s')
           end.

Definition throw {A} (message : jsstring) : M A := fun s => (Throw message, s).

Definition lift {A} (r : result A) : M A := fun s => (r, s).

Definition gets {A} (f : state -> A) : M A := fun s => (Ok (f s), s).

Definition modify (f : state -> state) : M unit := fun s => (Ok tt, f s).

(** [try { body } catch (error) { handler(error.message) }] *)
Definition try_catch {A} (body : M A) (handler : jsstring -> M A) : M A :=
  fun s => match body s with
           | (Ok a, s') => (Ok a, s')
           | (Throw e, s') => handler e s'
           end.

Declare Scope js_scope.
Delimit Scope js_scope with js.
Notation "x <- c ;; k" := (bind c (fun x => k))
  (at level 61, c at next level, right associativity) : js_scope.
Notation "c ;; k" := (bind c (fun _ => k))
  (at level 61, right associativity) : js_scope.
Open Scope js_scope.

(** What a handler hands to [res]: the status code and the object given
    to [res.json]. *)
Record response := mkResponse {
  status_code : Z;
  body : value
}.

Definition json (code : Z) (props : list (jsstring * value)) : response :=
  mkResponse code (VObj props).

Definition optnum (o : option Z) : value :=
  match o with Some n => VNum n | None => VUndefined end.

(** [const { name } = req.body]: a property the body lacks is [undefined]. *)
Definition field (name : string) (props : list (jsstring * value)) : value :=
  match prop (js name) props with
  | Some v => v
  | None => VUndefined
  end.

(** [const { language = d } = req.body] *)
Definition field_default (name : string) (d : jsstring)
    (props : list (jsstring * value)) : value :=
  match field name props with
  | VUndefined => VStr d
  | v => v
  end.

(** [`${responseTime}ms`] *)
Definition ms (responseTime : Z) : value :=
  VStr (Number_toString responseTime ++ js "ms").

(** ** The service *)

Section Service.

(** [AUDIO_CONFIG]; the file fixes it to the constant of that name. *)
Variable cfg : config.

(** [crypto.createHash('md5').update(s).digest('hex')]: the digest of
    the UTF-8 encoding of [s], which throws where the digest is not
    available. *)
Variable md5_hex : jsstring -> result jsstring.

(** [new URLSearchParams({...}).toString()] on the listed pairs. *)
Variable URLSearchParams_toString :
  list (jsstring * jsstring) -> result jsstring.

(** [new Date(t).toISOString()] *)
Variable toISOString : Z -> jsstring.

Definition generateAudioUrl (text language : value) : result jsstring :=
  let language :=
    match language with VUndefined => VStr (js "zh-CN") | _ => language end in
  match ToString text with
  | Ok q =>
      match ToString language with
      | Ok tl =>
          match URLSearchParams_toString
                  [(js "ie", js "UTF-8"); (js "q", q);
                   (js "tl", tl); (js "client", js "tw-ob")] with
          | Ok params => Ok (TTS_BASE_URL cfg ++ js "?" ++ params)
          | Throw e => Throw e
          end
      | Throw e => Throw e
      end
  | Throw e => Throw e
  end.

Definition generateCacheKey (text language : value) : result jsstring :=
  match ToString text with
  | Ok text =>
      match ToString language with
      | Ok language => md5_hex (text ++ js "-" ++ language)
      | Throw e => Throw e
      end
  | Throw e => Throw e
  end.

(** The [for] loop of [cleanCache]: [n] iterations are left, the next
    one reads [entries[i][0]], which throws past the end of [entries]. *)
Fixpoint cleanCache_loop (entries : JsMap.t CacheRecord.t) (i n : nat)
    : M unit :=
  match n with
  | O => ret tt
  | S n' =>
      match nth_error entries i with
      | Some (k, _) =>
          modify (fun s => with_audioCache (JsMap.delete k (audioCache s)) s);;
          cleanCache_loop entries (S i) n'
      | None => throw (js "Cannot read properties of undefined")
      end
  end.

(** [Math.floor(MAX_CACHE_SIZE * 0.2)]: the double nearest to 0.2
    exceeds 1/5 by 2^-54/5, so the product rounds to [n / 5] when 5
    divides [n] and stays below the next integer otherwise. *)
Definition entriesToRemove : nat := (MAX_CACHE_SIZE cfg / 5)%nat.

Definition cleanCache : M unit :=
  size <- gets (fun s => JsMap.size (audioCache s));;
  if (MAX_CACHE_SIZE cfg <=? size)%nat then
    entries <- gets audioCache;;
    cleanCache_loop entries 0 entriesToRemove
  else ret tt.

(** [chineseRegex.test(s)] for the class [\u4e00-\u9fff\u3400-\u4dbf]:
    some code unit of [s] lies in one of the two ranges. *)
Definition chineseRegex_test (s : jsstring) : bool :=
  existsb (fun c => ((0x4e00 <=? c) && (c <=? 0x9fff))
                    || ((0x3400 <=? c) && (c <=? 0x4dbf))) s.

Definition isValidChineseText (text : value) : bool :=
  if falsy text || negb (typeof_string text) then false
  else match text with
       | VStr s => chineseRegex_test s && (length s <=? 100)%nat
       | _ => false
       end.

Definition recordMetrics (endpoint : jsstring) (responseTime : Z) : M unit :=
  modify (fun s =>
    let rm := requestMetrics s in
    let rm := if JsMap.has endpoint rm then rm
              else JsMap.set endpoint [] rm in
    let metrics := match JsMap.get endpoint rm with
                   | Some l => l
                   | None => []
                   end in
    let metrics := metrics ++ [responseTime] in
    let metrics := if (100 <? length metrics)%nat then tl metrics
                   else metrics in
    with_requestMetrics (JsMap.set endpoint metrics rm) s).

(** [cleanCache(); audioCache.set(cacheKey, {...})], the insertion of
    both [/audio] and the resolution pass. *)
Definition cache_put (cacheKey : jsstring) (r : CacheRecord.t) : M unit :=
  cleanCache;;
  modify (fun s => with_audioCache (JsMap.set cacheKey r (audioCache s)) s).

(** *** [POST /audio]

    [startTime] is the clock at entry, [now] the clock when the response
    time is taken, [date] the clock read by [new Date()]. *)
Definition post_audio (req_body : list (jsstring * value))
    (startTime now date : Z) : M response :=
  try_catch
    (let text := field "text" req_body in
     let language := field_default "language" (DEFAULT_LANGUAGE cfg) req_body in
     if negb (isValidChineseText text) then
       ret (json 400
         [(js "error", VStr (js "Invalid Chinese text provided"));
          (js "details", VStr (js "Text must contain Chinese characters and be less than 100 characters"))])
     else if negb (includes (SUPPORTED_LANGUAGES cfg) language) then
       ret (json 400
         [(js "error", VStr (js "Unsupported language"));
          (js "supportedLanguages",
           VArr (map VStr (SUPPORTED_LANGUAGES cfg)))])
     else
       cacheKey <- lift (generateCacheKey text language);;
       hit <- gets (fun s => JsMap.has cacheKey (audioCache s));;
       if hit then
         let responseTime := now - startTime in
         recordMetrics (js "/audio") responseTime;;
         ret (json 200
           [(js "success", VBool true); (js "text", text);
            (js "language", language);
            (js "audioUrl", VStr (js "/play/" ++ cacheKey));
            (js "cached", VBool true);
            (js "responseTime", ms responseTime)])
       else
         audioUrl <- lift (generateAudioUrl text language);;
         cache_put cacheKey
           (CacheRecord.mk audioUrl text language (toISOString date));;
         let responseTime := now - startTime in
         recordMetrics (js "/audio") responseTime;;
         ret (json 200
           [(js "success", VBool true); (js "text", text);
            (js "language", language);
            (js "audioUrl", VStr (js "/play/" ++ cacheKey));
            (js "cached", VBool false);
            (js "responseTime", ms responseTime)]))
    (fun _ =>
       let responseTime := now - startTime in
       ret (json 500
         [(js "error", VStr (js "Internal server error while generating audio"));
          (js "responseTime", ms responseTime)])).

(** *** [POST /audio] of the second variant of the file

    It differs from [post_audio] in the [audioUrl] of the two
    successful responses. *)
Definition post_audio_direct (req_body : list (jsstring * value))
    (startTime now date : Z) : M response :=
  try_catch
    (let text := field "text" req_body in
     let language := field_default "language" (DEFAULT_LANGUAGE cfg) req_body in
     if negb (isValidChineseText text) then
       ret (json 400
         [(js "error", VStr (js "Invalid Chinese text provided"));
          (js "details", VStr (js "Text must contain Chinese characters and be less than 100 characters"))])
     else if negb (includes (SUPPORTED_LANGUAGES cfg) language) then
       ret (json 400
         [(js "error", VStr (js "Unsupported language"));
          (js "supportedLanguages",
           VArr (map VStr (SUPPORTED_LANGUAGES cfg)))])
     else
       cacheKey <- lift (generateCacheKey text language);;
       hit <- gets (fun s => JsMap.has cacheKey (audioCache s));;
       if hit then
         cachedData <- gets (fun s => JsMap.get cacheKey (audioCache s));;
         let responseTime := now - startTime in
         recordMetrics (js "/audio") responseTime;;
         match cachedData with
         | Some cachedData =>
             ret (json 200
               [(js "success", VBool true); (js "text", text);
                (js "language", language);
                (js "audioUrl", VStr (CacheRecord.audioUrl cachedData));
                (js "cached", VBool true);
                (js "responseTime", ms responseTime)])
         | None => throw (js "Cannot read properties of undefined")
         end
       else
         audioUrl <- lift (generateAudioUrl text language);;
         cache_put cacheKey
           (CacheRecord.mk audioUrl text language (toISOString date));;
         let responseTime := now - startTime in
         recordMetrics (js "/audio") responseTime;;
         ret (json 200
           [(js "success", VBool true); (js "text", text);
            (js "language", language);
            (js "audioUrl", VStr audioUrl);
            (js "cached", VBool false);
            (js "responseTime", ms responseTime)]))
    (fun _ =>
       let responseTime := now - startTime in
       ret (json 500
         [(js "error", VStr (js "Internal server error while generating audio"));
          (js "responseTime", ms responseTime)])).

(** *** [GET /play/:cacheKey]

    The handler starts one request and registers its callbacks: the one
    of [https.get] for the response, the listener of ['error'] and the
    one of [setTimeout].  All stay registered.  [upstream] is what the
    upstream does first, and the actions are the calls the handler and
    its callbacks make from there, in their order. *)
Inductive upstream :=
| UpResponse (audioResponse : list Z)
| UpError (message : jsstring)
| UpTimeout.

Inductive action :=
| https_get (url : jsstring)
| request_on_error
| request_setTimeout (delay : Z)
| request_destroy
| res_setHeader (name value : jsstring)
| pipe (audioResponse : list Z)
| res_json (r : response).

(** The callback given to [https.get]. *)
Definition on_response (audioResponse : list Z) : list action :=
  [res_setHeader (js "Content-Type") (js "audio/mpeg");
   res_setHeader (js "Cache-Control") (js "public, max-age=3600");
   res_setHeader (js "Access-Control-Allow-Origin") (js "*");
   pipe audioResponse].

(** The listener given to [request.on('error', ...)]. *)
Definition on_error (message : jsstring) : list action :=
  [res_json (json 500
     [(js "error", VStr (js "Failed to retrieve audio"));
      (js "details", VStr message)])].

(** The callback given to [request.setTimeout]. *)
Definition on_timeout : list action :=
  [request_destroy;
   res_json (json 504 [(js "error", VStr (js "Audio request timed out"))])].

Definition callback (up : upstream) : list action :=
  match up with
  | UpResponse audioResponse => on_response audioResponse
  | UpError message => on_error message
  | UpTimeout => on_timeout
  end.

(** What a call makes the request emit: [request.destroy()], called
    before a response has arrived, makes it emit ['error'] with the
    message [socket hang up], once the caller has returned. *)
Definition socket_hang_up : jsstring := js "socket hang up".

Definition emits (a : action) : list upstream :=
  match a with
  | request_destroy => [UpError socket_hang_up]
  | _ => []
  end.

(** The callback of the first event runs, and then the callbacks of the
    events its own calls have made the request emit: after a timeout
    the listener of ['error'] runs as well, and calls
    [res.status(500).json] when the 504 has been sent. *)
Definition play_callback (up : upstream) : list action :=
  let calls := callback up in
  calls ++ flat_map callback (flat_map emits calls).

Definition get_play (cacheKey : jsstring) (up : upstream) : M (list action) :=
  hit <- gets (fun s => JsMap.has cacheKey (audioCache s));;
  if negb hit then
    ret [res_json (json 404
           [(js "error", VStr (js "Audio not found"));
            (js "details", VStr (js "The requested audio has not been cached or has expired"))])]
  else
    cachedData <- gets (fun s => JsMap.get cacheKey (audioCache s));;
    match cachedData with
    | Some cachedData =>
        let audioUrl := CacheRecord.audioUrl cachedData in
        ret ([https_get audioUrl; request_on_error; request_setTimeout 10000]
             ++ play_callback up)
    | None => throw (js "Cannot read properties of undefined")
    end.

(** *** [POST /preload]

    [preloadId] is what [crypto.randomUUID()] returns; [jobStart] is the
    clock read for [preloadData.startTime]. *)
Definition post_preload (req_body : list (jsstring * value))
    (preloadId : jsstring) (startTime jobStart date now : Z) : M response :=
  try_catch
    (let texts := field "texts" req_body in
     let language := field_default "language" (DEFAULT_LANGUAGE cfg) req_body in
     match texts with
     | VArr elems =>
         if (length elems =? 0)%nat then
           ret (json 400
             [(js "error", VStr (js "Invalid input: texts must be a non-empty array"))])
         else if (10 <? length elems)%nat then
           ret (json 400
             [(js "error", VStr (js "Too many texts to preload (maximum 10)"))])
         else
           match find (fun text => negb (isValidChineseText text)) elems with
           | Some text =>
               rendered <- lift (ToString text);;
               ret (json 400
                 [(js "error",
                   VStr (js "Invalid Chinese text: " ++ [34] ++ rendered ++ [34]));
                  (js "details", VStr (js "All texts must contain Chinese characters and be less than 100 characters"))])
           | None =>
               if negb (includes (SUPPORTED_LANGUAGES cfg) language) then
                 ret (json 400
                   [(js "error", VStr (js "Unsupported language"));
                    (js "supportedLanguages",
                     VArr (map VStr (SUPPORTED_LANGUAGES cfg)))])
               else
                 preloadData <- gets allocated;;
                 modify (heap_alloc
                   (PreloadData.mk preloadId elems language processing []
                      jobStart (toISOString date) None None None));;
                 modify (fun s =>
                   with_preloadQueue
                     (JsMap.set preloadId preloadData (preloadQueue s)) s);;
                 modify (fun s =>
                   with_immediates
                     (immediates s ++ [mkImmediate elems language preloadData]) s);;
                 let responseTime := now - startTime in
                 recordMetrics (js "/preload") responseTime;;
                 ret (json 200
                   [(js "success", VBool true);
                    (js "preloadId", VStr preloadId);
                    (js "status", VStr (js "processing"));
                    (js "textsCount", VNum (Z.of_nat (length elems)));
                    (js "language", language);
                    (js "responseTime", ms responseTime);
                    (js "statusUrl", VStr (js "/preload/" ++ preloadId))])
           end
     | _ =>
         ret (json 400
           [(js "error", VStr (js "Invalid input: texts must be a non-empty array"))])
     end)
    (fun _ =>
       let responseTime := now - startTime in
       ret (json 500
         [(js "error", VStr (js "Internal server error while initiating preload"));
          (js "responseTime", ms responseTime)])).

(** *** The callback given to [setImmediate]

    [resolve_texts] is its [for] loop: [results] is the array built so
    far and [date i] the clock read by [new Date()] for the text of
    index [i]. *)
Fixpoint resolve_texts (texts : list value) (language : value)
    (date : nat -> Z) (i : nat) (results : list ResultEntry.t)
    : M (list ResultEntry.t) :=
  match texts with
  | [] => ret results
  | text :: rest =>
      cacheKey <- lift (generateCacheKey text language);;
      hit <- gets (fun s => JsMap.has cacheKey (audioCache s));;
      if hit then
        resolve_texts rest language date (S i)
          (results ++ [ResultEntry.mk text (js "/play/" ++ cacheKey) true])
      else
        externalUrl <- lift (generateAudioUrl text language);;
        cache_put cacheKey
          (CacheRecord.mk externalUrl text language (toISOString (date i)));;
        resolve_texts rest language date (S i)
          (results ++ [ResultEntry.mk text (js "/play/" ++ cacheKey) false])
  end.

Definition resolution_pass (im : immediate) (date : nat -> Z) (now : Z)
    : M unit :=
  try_catch
    (results <- resolve_texts (imm_texts im) (imm_language im) date 0 [];;
     modify (heap_update (imm_preloadData im)
               (PreloadData.complete results now)))
    (fun message =>
       modify (heap_update (imm_preloadData im) (PreloadData.fail message))).

(** The event loop runs the oldest queued callback. *)
Definition run_immediate (date : nat -> Z) (now : Z) : M unit :=
  queue <- gets immediates;;
  match queue with
  | [] => ret tt
  | im :: rest =>
      modify (with_immediates rest);;
      resolution_pass im date now
  end.

(** *** [GET /preload/:preloadId] *)

(** The object given to [res.json] for the job [preloadData]. *)
Definition status_body (preloadId : jsstring) (preloadData : PreloadData.t)
    (responseTime : Z) : list (jsstring * value) :=
  [(js "success", VBool true);
   (js "preloadId", VStr preloadId);
   (js "status", VStr (status_string (PreloadData.status preloadData)));
   (js "results",
    VArr (map ResultEntry.to_value (PreloadData.results preloadData)));
   (js "textsCount",
    VNum (Z.of_nat (length (PreloadData.texts preloadData))));
   (js "language", PreloadData.language preloadData);
   (js "processingDuration",
    optnum (PreloadData.processingDuration preloadData));
   (js "timestamp", VStr (PreloadData.timestamp preloadData));
   (js "responseTime", ms responseTime)].

(** [startTime], [now] and [ageNow] are the three readings of the
    clock, in the order the handler makes them. *)
Definition get_preload (preloadId : jsstring) (startTime now ageNow : Z)
    : M response :=
  try_catch
    (hit <- gets (fun s => JsMap.has preloadId (preloadQueue s));;
     if negb hit then
       ret (json 404
         [(js "error", VStr (js "Preload request not found"));
          (js "preloadId", VStr preloadId)])
     else
       entry <- gets (fun s => JsMap.get preloadId (preloadQueue s));;
       match entry with
       | Some r =>
           preloadData <- gets (fun s => heap s r);;
           let responseTime := now - startTime in
           (if terminal (PreloadData.status preloadData) then
              let age := ageNow - PreloadData.startTime preloadData in
              if 300000 <? age then
                modify (fun s =>
                  with_preloadQueue (JsMap.delete preloadId (preloadQueue s)) s)
              else ret tt
            else ret tt);;
           ret (json 200 (status_body preloadId preloadData responseTime))
       | None => throw (js "Cannot read properties of undefined")
       end)
    (fun _ =>
       let responseTime := now - startTime in
       ret (json 500
         [(js "error", VStr (js "Internal server error while getting preload status"));
          (js "responseTime", ms responseTime)])).

(** *** The callback given to [setInterval]

    The loop visits the entries of [preloadQueue] in order; deleting the
    entry being visited does not disturb the iteration. *)
Definition sweep_visit (now cutoff : Z) (s : state) (e : jsstring * ref)
    : state :=
  let (id, data) := e in
  if cutoff <? now - PreloadData.startTime (heap s data) then
    with_preloadQueue (JsMap.delete id (preloadQueue s)) s
  else s.

Definition sweep (now : Z) : M unit :=
  let cutoff := 300000 in
  entries <- gets preloadQueue;;
  modify (fold_left (sweep_visit now cutoff) entries).

(** *** [POST /cache/clear] *)
Definition post_cache_clear (startTime now : Z) : M response :=
  try_catch
    (previousSize <- gets (fun s => JsMap.size (audioCache s));;
     modify (with_audioCache []);;
     modify (with_preloadQueue []);;
     let responseTime := now - startTime in
     ret (json 200
       [(js "success", VBool true);
        (js "message", VStr (js "Cache cleared successfully"));
        (js "previousCacheSize", VNum (Z.of_nat previousSize));
        (js "responseTime", ms responseTime)]))
    (fun _ =>
       let responseTime := now - startTime in
       ret (json 500
         [(js "error", VStr (js "Internal server error while clearing cache"));
          (js "responseTime", ms responseTime)])).

End Service.

(** The cache as [cleanCache] leaves it, and as the insertion leaves it. *)
Definition cache_after_clean (cfg : config) (s : state) : JsMap.t CacheRecord.t :=
  audioCache (snd (cleanCache cfg s)).

Definition cache_after_put (cfg : config) (k : jsstring) (r : CacheRecord.t)
    (s : state) : JsMap.t CacheRecord.t :=
  audioCache (snd (cache_put cfg k r s)).

(** Insertions one after the other, from the state [s]. *)
Definition put_all (cfg : config) (l : list (jsstring * CacheRecord.t))
    (s : state) : state :=
  fold_left (fun s' e => snd (cache_put cfg (fst e) (snd e) s')) l s.

(** [AUDIO_CONFIG] with the capacity of the five-entry scenario. *)
Definition capacity5 : config :=
  mkConfig (TTS_BASE_URL AUDIO_CONFIG) 5 (PRELOAD_TIMEOUT AUDIO_CONFIG)
           (SUPPORTED_LANGUAGES AUDIO_CONFIG) (DEFAULT_LANGUAGE AUDIO_CONFIG).

(** A record for the key [k] of a scenario; only the key matters there. *)
Definition record_of (k : jsstring) : CacheRecord.t :=
  CacheRecord.mk (js "https://translate.google.com/translate_tts?q=" ++ k)
                 (VStr k) (VStr (js "zh-CN")) (js "2024-01-01T00:00:00.000Z").

Definition entries_of (ks : list jsstring) : JsMap.t CacheRecord.t :=
  map (fun k => (k, record_of k)) ks.

(** A job of one text with the given status, creation time and completion time. *)
Definition job_of (st : job_status) (start : Z) (done : option Z)
    : PreloadData.t :=
  PreloadData.mk (js "job-1") [VStr [0x5b66; 0x4e60]] (VStr (js "zh-CN")) st []
    start (js "2024-01-01T00:00:00.000Z") done
    (option_map (fun c => c - start) done) None.

(** A registry that holds the job [d] alone, under the id [job-1]. *)
Definition registry_of (d : PreloadData.t) : state :=
  mkState [] [(js "job-1", 0%nat)] [] (fun _ => d) 1 [].

(** The entries the [setInterval] callback leaves at the clock [now]. *)
Definition swept (now : Z) (s : state) : JsMap.t ref :=
  preloadQueue (snd (sweep now s)).

(** The age both deletion paths compare with 300000. *)
Definition age (now : Z) (d : PreloadData.t) : Z :=
  now - PreloadData.startTime d.

(** Whether the sweep at [now] keeps the entry [e] of the registry. *)
Definition sweep_keeps (now : Z) (s : state) (e : jsstring * ref) : bool :=
  negb (300000 <? age now (heap s (snd e))).

(** [s'] differs from [s] in the cache at most. *)
Definition only_cache (s s' : state) : Prop :=
  s' = with_audioCache (audioCache s') s.

(** A [POST /preload] body the validation of the handler refuses:
    [texts] is not an array, is empty, has more than 10 entries or an
    entry that is not a valid text, or the language is not supported. *)
Definition invalid_batch (cfg : config) (req_body : list (jsstring * value))
    : bool :=
  match field "texts" req_body with
  | VArr elems =>
      (length elems =? 0)%nat
      || (10 <? length elems)%nat
      || negb (forallb isValidChineseText elems)
      || negb (includes (SUPPORTED_LANGUAGES cfg)
                 (field_default "language" (DEFAULT_LANGUAGE cfg) req_body))
  | _ => true
  end.

(** The state an accepted [POST /preload] leaves: the new job on the heap
    and in the registry, its pass queued, the response time recorded. *)
Definition accepted (toISOString : Z -> jsstring) (texts : list value)
    (language : value) (preloadId : jsstring) (startTime jobStart date now : Z)
    (s : state) : state :=
  snd (recordMetrics (js "/preload") (now - startTime)
    (with_immediates
       (immediates s ++ [mkImmediate texts language (allocated s)])
       (with_preloadQueue
          (JsMap.set preloadId (allocated s) (preloadQueue s))
          (heap_alloc
             (PreloadData.mk preloadId texts language processing []
                jobStart (toISOString date) None None None) s)))).

(** Stand-ins for the library calls, for the examples: a digest that
    returns its input, a digest that is not available, a query string that
    joins the values, and a date rendered as its number of milliseconds. *)
Definition digest_stub (s : jsstring) : result jsstring := Ok s.

Definition digest_unavailable (s : jsstring) : result jsstring :=
  Throw (js "Digest method not supported").

Definition params_stub (l : list (jsstring * jsstring)) : result jsstring :=
  Ok (join_comma (map snd l)).

Definition date_stub (t : Z) : jsstring := Number_toString t.

(** The body [{texts: ["\u5b66\u4e60"]}] of a preload request. *)
Definition one_text_body : list (jsstring * value) :=
  [(js "texts", VArr [VStr [0x5b66; 0x4e60]])].

(** The request [one_text_body] accepted from the initial state: the
    response and the state it leaves. *)
Definition accepted_example : result response * state :=
  post_preload AUDIO_CONFIG date_stub one_text_body (js "job-1") 0 1 1 2 initial.

Definition example_response : response :=
  match fst accepted_example with
  | Ok resp => resp
  | Throw _ => json 500 []
  end.

(** The state after the pass of that job has run where the digest is not
    available. *)
Definition failed_example : state :=
  snd (run_immediate AUDIO_CONFIG digest_unavailable params_stub date_stub
         (fun _ => 3) 4 (snd accepted_example)).



(** The properties of the object a response carries. *)
Definition props_of (r : response) : list (jsstring * value) :=
  match body r with VObj props => props | _ => [] end.

(** A response without its [audioUrl] property. *)
Definition without_audioUrl (r : response) : response :=
  json (status_code r)
       (filter (fun kv => negb (jsstring_eqb (js "audioUrl") (fst kv)))
               (props_of r)).

(** Every record of the cache holds the locator [generateAudioUrl] gives
    for the record's own text and language. *)
Definition locators_external (cfg : config)
    (URLSearchParams_toString : list (jsstring * jsstring) -> result jsstring)
    (cache : JsMap.t CacheRecord.t) : Prop :=
  forall k r, In (k, r) cache ->
    generateAudioUrl cfg URLSearchParams_toString
      (CacheRecord.text r) (CacheRecord.language r)
    = Ok (CacheRecord.audioUrl r).

(** ** The service as a transition system

    What the event loop can run: a request handler with the clock
    readings it makes, the oldest queued [setImmediate] callback, or the
    [setInterval] callback.  The runs below take these in any order.
    The loop itself is more orderly: the pass given to [setImmediate]
    has no [await], and the loop runs every queued callback of
    [setImmediate] before it comes back to its timers, so that the
    [setInterval] callback runs in states where no pass is queued. *)
Inductive event :=
| PostAudio (req_body : list (jsstring * value)) (startTime now date : Z)
| GetPlay (cacheKey : jsstring) (up : upstream)
| PostPreload (req_body : list (jsstring * value)) (preloadId : jsstring)
    (startTime jobStart date now : Z)
| RunImmediate (date : nat -> Z) (now : Z)
| GetPreload (preloadId : jsstring) (startTime now ageNow : Z)
| Sweep (now : Z)
| PostCacheClear (startTime now : Z).

Section Run.
Variable cfg : config.
Variable md5_hex : jsstring -> result jsstring.
Variable URLSearchParams_toString : list (jsstring * jsstring) -> result jsstring.
Variable toISOString : Z -> jsstring.

Definition step (s : state) (e : event) : state :=
  match e with
  | PostAudio req_body startTime now date =>
      snd (post_audio cfg md5_hex URLSearchParams_toString toISOString
             req_body startTime now date s)
  | GetPlay cacheKey up => snd (get_play cacheKey up s)
  | PostPreload req_body preloadId startTime jobStart date now =>
      snd (post_preload cfg toISOString req_body preloadId startTime jobStart
             date now s)
  | RunImmediate date now =>
      snd (run_immediate cfg md5_hex URLSearchParams_toString toISOString
             date now s)
  | GetPreload preloadId startTime now ageNow =>
      snd (get_preload preloadId startTime now ageNow s)
  | Sweep now => snd (sweep now s)
  | PostCacheClear startTime now => snd (post_cache_clear startTime now s)
  end.

(** The state after the events [es], from the state the module starts in. *)
Definition run (es : list event) : state := fold_left step es initial.

(** What holds of the cache and of the registry in every state the
    service reaches. *)
Definition cache_ok (cache : JsMap.t CacheRecord.t) : Prop :=
  JsMap.wf cache /\
  (JsMap.size cache <= MAX_CACHE_SIZE cfg)%nat /\
  locators_external cfg URLSearchParams_toString cache.

Definition invariant (s : state) : Prop :=
  cache_ok (audioCache s) /\ JsMap.wf (preloadQueue s).

End Run.

(** ** [GET /health] *)

(** [Math.round(sum / n)] for an integer [sum] and a length [n]: the
    quotient is rounded to the nearest integer, a half going up.  The
    double the division returns lies on the same side of every half
    integer as the exact quotient, so the integer is the exact one. *)
Definition Math_round_quotient (sum : Z) (n : nat) : Z :=
  (2 * sum + Z.of_nat n) / (2 * Z.of_nat n).

(** [Math.round(times.reduce((a, b) => a + b, 0) / times.length)] *)
Definition average (times : list Z) : Z :=
  Math_round_quotient (fold_left Z.add times 0) (length times).

(** The object [avgResponseTimes]: one property per endpoint that has
    samples, in the order of [requestMetrics]. *)
Definition avgResponseTimes (metrics : JsMap.t (list Z))
    : list (jsstring * value) :=
  flat_map
    (fun e : jsstring * list Z =>
       let (endpoint, times) := e in
       if (0 <? length times)%nat then [(endpoint, VNum (average times))]
       else [])
    metrics.

Section Monitoring.
Variable cfg : config.
Variable toISOString : Z -> jsstring.

(** [uptime] is [Math.floor(process.uptime())]; [startTime], [now] and
    [date] are the readings of the clock, in the order the handler makes
    them. *)
Definition get_health (uptime startTime now date : Z) : M response :=
  avg <- gets (fun s => avgResponseTimes (requestMetrics s));;
  let responseTime := now - startTime in
  size <- gets (fun s => JsMap.size (audioCache s));;
  ret (json 200
    [(js "status", VStr (js "healthy"));
     (js "service", VStr (js "Pronunciation Audio Service"));
     (js "uptime", VNum uptime);
     (js "timestamp", VStr (toISOString date));
     (js "cache",
      VObj [(js "size", VNum (Z.of_nat size));
            (js "maxSize", VNum (Z.of_nat (MAX_CACHE_SIZE cfg)))]);
     (js "averageResponseTimes", VObj avg);
     (js "responseTime", ms responseTime)]).

End Monitoring.

(** ** The resolution pass of the second variant of the file

    It differs from [resolve_texts] in the [audioUrl] of the entries: the
    locator stored in the cache instead of the [/play/] reference. *)
Section DirectPass.
Variable cfg : config.
Variable md5_hex : jsstring -> result jsstring.
Variable URLSearchParams_toString : list (jsstring * jsstring) -> result jsstring.
Variable toISOString : Z -> jsstring.

Fixpoint resolve_texts_direct (texts : list value) (language : value)
    (date : nat -> Z) (i : nat) (results : list ResultEntry.t)
    : M (list ResultEntry.t) :=
  match texts with
  | [] => ret results
  | text :: rest =>
      cacheKey <- lift (generateCacheKey md5_hex text language);;
      hit <- gets (fun s => JsMap.has cacheKey (audioCache s));;
      if hit then
        cachedData <- gets (fun s => JsMap.get cacheKey (audioCache s));;
        match cachedData with
        | Some cachedData =>
            resolve_texts_direct rest language date (S i)
              (results
               ++ [ResultEntry.mk text (CacheRecord.audioUrl cachedData) true])
        | None => throw (js "Cannot read properties of undefined")
        end
      else
        audioUrl <- lift (generateAudioUrl cfg URLSearchParams_toString
                            text language);;
        cache_put cfg cacheKey
          (CacheRecord.mk audioUrl text language (toISOString (date i)));;
        resolve_texts_direct rest language date (S i)
          (results ++ [ResultEntry.mk text audioUrl false])
  end.

Definition resolution_pass_direct (im : immediate) (date : nat -> Z) (now : Z)
    : M unit :=
  try_catch
    (results <- resolve_texts_direct (imm_texts im) (imm_language im) date 0 [];;
     modify (heap_update (imm_preloadData im)
               (PreloadData.complete results now)))
    (fun message =>
       modify (heap_update (imm_preloadData im) (PreloadData.fail message))).

End DirectPass.

(** ** Predicates of the further properties *)

(** The state [s'] has the jobs and the queued passes of [s]. *)
Definition same_jobs (s s' : state) : Prop :=
  heap s' = heap s /\ immediates s' = immediates s /\
  allocated s' = allocated s.

(** Every queued pass belongs to an allocated job that is still
    processing, no two queued passes share a job, and the references not
    yet allocated hold no job. *)
Definition passes_pending (s : state) : Prop :=
  (forall r, (allocated s <= r)%nat -> heap s r = blank) /\
  (forall im, In im (immediates s) ->
     (imm_preloadData im < allocated s)%nat /\
     PreloadData.status (heap s (imm_preloadData im)) = processing) /\
  NoDup (map imm_preloadData (immediates s)).

(** What the service stores under a key: a record of a valid text and a
    supported language, under the key and with the locator derived from
    them. *)
Definition record_derived (cfg : config)
    (md5_hex : jsstring -> result jsstring)
    (URLSearchParams_toString : list (jsstring * jsstring) -> result jsstring)
    (e : jsstring * CacheRecord.t) : Prop :=
  isValidChineseText (CacheRecord.text (snd e)) = true /\
  includes (SUPPORTED_LANGUAGES cfg) (CacheRecord.language (snd e)) = true /\
  generateCacheKey md5_hex (CacheRecord.text (snd e))
    (CacheRecord.language (snd e)) = Ok (fst e) /\
  generateAudioUrl cfg URLSearchParams_toString (CacheRecord.text (snd e))
    (CacheRecord.language (snd e)) = Ok (CacheRecord.audioUrl (snd e)).

(** The texts and the language a queued pass was accepted with. *)
Definition pass_validated (cfg : config) (im : immediate) : Prop :=
  forallb isValidChineseText (imm_texts im) = true /\
  includes (SUPPORTED_LANGUAGES cfg) (imm_language im) = true.

(** The samples of an endpoint; none when it was never recorded. *)
Definition samples (endpoint : jsstring) (s : state) : list Z :=
  match JsMap.get endpoint (requestMetrics s) with
  | Some l => l
  | None => []
  end.

(** ** Examples of the further properties *)

(** The body [{text: "\u4f60\u597d"}] of an audio request, what the
    service answers to it from the initial state with the stand-ins for
    the library calls, and the key and the record it caches. *)
Definition greeting_body : list (jsstring * value) :=
  [(js "text", VStr [0x4f60; 0x597d])].

Definition greeting_answer : result response * state :=
  post_audio AUDIO_CONFIG digest_stub params_stub date_stub greeting_body
    0 3 2 initial.

Definition greeting_response : response :=
  match fst greeting_answer with
  | Ok resp => resp
  | Throw _ => json 500 []
  end.

Definition greeting_key : jsstring := [0x4f60; 0x597d] ++ js "-zh-CN".

Definition greeting_record : CacheRecord.t :=
  CacheRecord.mk
    (js "https://translate.google.com/translate_tts?UTF-8,"
     ++ [0x4f60; 0x597d] ++ js ",zh-CN,tw-ob")
    (VStr [0x4f60; 0x597d]) (VStr (js "zh-CN")) (date_stub 2).

(** One batch accepted from the initial state, and its pass run. *)
Definition finished_events : list event :=
  [PostPreload one_text_body (js "job-1") 0 1 1 2;
   RunImmediate (fun _ => 3) 4].

(** ** What the claims are stated with *)

(** A text that is not valid and that a template literal cannot render:
    the object [{toString: 1}] of a JSON body. *)
Definition unrenderable : value := VObj [(js "toString", VNum 1)].

(** The body [{texts: [{toString: 1}]}] of a preload request, and the
    body [{text: {toString: 1}}] of an audio request. *)
Definition unrenderable_batch : list (jsstring * value) :=
  [(js "texts", VArr [unrenderable])].

Definition unrenderable_body : list (jsstring * value) :=
  [(js "text", unrenderable)].



(** Every job of the registry is allocated, and one that is still
    processing has its pass in the queue of [setImmediate]. *)
Definition registry_tracked (s : state) : Prop :=
  forall id r, In (id, r) (preloadQueue s) ->
    (r < allocated s)%nat /\
    (PreloadData.status (heap s r) = processing ->
     In r (map imm_preloadData (immediates s))).

(** A job in a terminal state whose age exceeds the retention window. *)
Definition expired (now : Z) (d : PreloadData.t) : bool :=
  terminal (PreloadData.status d) && (300000 <? age now d).



(** ** Facts about strings and [Map] *)

Lemma jsstring_eqb_eq a b : jsstring_eqb a b = true <-> a = b.
Proof. unfold jsstring_eqb. destruct (jsstring_eq_dec a b); split; congruence. Qed.

Lemma jsstring_eqb_refl a : jsstring_eqb a a = true.
Proof. now apply jsstring_eqb_eq. Qed.

Lemma jsstring_eqb_neq a b : jsstring_eqb a b = false <-> a <> b.
Proof. unfold jsstring_eqb. destruct (jsstring_eq_dec a b); split; congruence. Qed.

Section MapFacts.
Context {V : Type}.
Implicit Types (m : JsMap.t V) (k : jsstring) (v : V).

Lemma has_get m k : JsMap.has k m = true <-> exists v, JsMap.get k m = Some v.
Proof.
  unfold JsMap.has. destruct (JsMap.get k m); split; intros H.
  - now exists v.
  - reflexivity.
  - discriminate.
  - now destruct H.
Qed.

Lemma get_In m k v : JsMap.get k m = Some v -> In (k, v) m.
Proof.
  induction m as [|[k' v'] m IH]; simpl; [discriminate|].
  destruct (jsstring_eqb k k') eqn:E.
  - apply jsstring_eqb_eq in E. intros H. inversion H; subst. now left.
  - intros H. right. now apply IH.
Qed.

Lemma has_keys m k : JsMap.has k m = true <-> In k (JsMap.keys m).
Proof.
  unfold JsMap.has. induction m as [|[k' v'] m IH]; simpl.
  - split; [discriminate | tauto].
  - destruct (jsstring_eqb k k') eqn:E.
    + apply jsstring_eqb_eq in E. subst. tauto.
    + apply jsstring_eqb_neq in E. rewrite IH. split; [tauto|].
      intros [H|H]; [congruence | exact H].
Qed.

Lemma set_absent m k v :
  JsMap.has k m = false -> JsMap.set k v m = m ++ [(k, v)].
Proof.
  unfold JsMap.has. induction m as [|[k' v'] m IH]; simpl; intros H.
  - reflexivity.
  - destruct (jsstring_eqb k k'); [discriminate|]. now rewrite IH.
Qed.

Lemma keys_set_present m k v :
  JsMap.has k m = true -> JsMap.keys (JsMap.set k v m) = JsMap.keys m.
Proof.
  unfold JsMap.has. induction m as [|[k' v'] m IH]; simpl; intros H.
  - discriminate.
  - destruct (jsstring_eqb k k'); simpl; [reflexivity|]. now rewrite IH.
Qed.

Lemma get_set_same m k v : JsMap.get k (JsMap.set k v m) = Some v.
Proof.
  induction m as [|[k' v'] m IH]; simpl.
  - now rewrite jsstring_eqb_refl.
  - destruct (jsstring_eqb k k') eqn:E; simpl; rewrite E; [reflexivity | exact IH].
Qed.

Lemma size_set m k v :
  JsMap.size (JsMap.set k v m)
  = if JsMap.has k m then JsMap.size m else S (JsMap.size m).
Proof.
  destruct (JsMap.has k m) eqn:E.
  - unfold JsMap.size. rewrite <- !(length_map fst).
    fold (JsMap.keys (JsMap.set k v m)). fold (JsMap.keys m).
    now rewrite keys_set_present.
  - rewrite set_absent by exact E. unfold JsMap.size.
    rewrite length_app. simpl. lia.
Qed.

Lemma delete_head m k v : JsMap.delete k ((k, v) :: m) = m.
Proof. simpl. now rewrite jsstring_eqb_refl. Qed.

Lemma delete_absent m k : JsMap.has k m = false -> JsMap.delete k m = m.
Proof.
  unfold JsMap.has. induction m as [|[k' v'] m IH]; simpl; intros H.
  - reflexivity.
  - destruct (jsstring_eqb k k'); [discriminate|]. now rewrite IH.
Qed.

Lemma has_delete_same m k :
  JsMap.wf m -> JsMap.has k (JsMap.delete k m) = false.
Proof.
  unfold JsMap.wf. induction m as [|[k' v'] m IH]; simpl; intros H.
  - reflexivity.
  - inversion H as [|? ? Hn Hd]; subst.
    destruct (jsstring_eqb k k') eqn:E.
    + apply jsstring_eqb_eq in E. subst k'.
      destruct (JsMap.has k m) eqn:F; [|reflexivity].
      apply has_keys in F. contradiction.
    + unfold JsMap.has in *. simpl. rewrite E. now apply IH.
Qed.

Lemma keys_delete_incl m k x :
  In x (JsMap.keys (JsMap.delete k m)) -> In x (JsMap.keys m).
Proof.
  induction m as [|[k' v'] m IH]; simpl; [tauto|].
  destruct (jsstring_eqb k k'); simpl; tauto.
Qed.

Lemma wf_delete m k : JsMap.wf m -> JsMap.wf (JsMap.delete k m).
Proof.
  unfold JsMap.wf. induction m as [|[k' v'] m IH]; simpl; intros H.
  - constructor.
  - inversion H; subst. destruct (jsstring_eqb k k'); simpl; [assumption|].
    constructor; [|now apply IH].
    intros Hin. apply keys_delete_incl in Hin. contradiction.
Qed.

Lemma wf_set m k v : JsMap.wf m -> JsMap.wf (JsMap.set k v m).
Proof.
  intros H. destruct (JsMap.has k m) eqn:E.
  - unfold JsMap.wf. now rewrite keys_set_present.
  - rewrite set_absent by exact E. unfold JsMap.wf, JsMap.keys.
    rewrite map_app. simpl. apply NoDup_app.
    repeat split.
    + exact H.
    + repeat constructor. intros [].
    + intros x Hx [Hk|[]]. subst x. apply has_keys in Hx. congruence.
Qed.

Lemma In_set m k v x : In x (JsMap.set k v m) -> x = (k, v) \/ In x m.
Proof.
  induction m as [|[k' v'] m IH]; simpl.
  - intros [H|[]]. now left.
  - destruct (jsstring_eqb k k') eqn:E; simpl.
    + apply jsstring_eqb_eq in E. subst k'. intros [H|H]; auto.
    + intros [H|H]; auto. destruct (IH H); auto.
Qed.

Lemma wf_filter (f : jsstring * V -> bool) m :
  JsMap.wf m -> JsMap.wf (filter f m).
Proof.
  unfold JsMap.wf, JsMap.keys. induction m as [|e m IH]; simpl; intros H.
  - constructor.
  - inversion H as [|? ? Hn Hd]; subst.
    destruct (f e); simpl; [|now apply IH].
    constructor; [|now apply IH].
    intros Hin. apply Hn. apply in_map_iff in Hin.
    destruct Hin as [e' [He Hin]]. apply filter_In in Hin.
    apply in_map_iff. exists e'. tauto.
Qed.

Lemma wf_skipn m n : JsMap.wf m -> JsMap.wf (skipn n m).
Proof.
  unfold JsMap.wf. revert m. induction n; intros m H; simpl; [exact H|].
  destruct m as [|e m]; [exact H|]. inversion H; subst. now apply IHn.
Qed.

End MapFacts.

Lemma skipn_nth_error {A} (l : list A) i x :
  nth_error l i = Some x -> skipn i l = x :: skipn (S i) l.
Proof.
  revert l. induction i; intros [|a l] H; try discriminate.
  - now inversion H.
  - simpl in H. apply IHi in H. exact H.
Qed.

Lemma with_audioCache_same s : with_audioCache (audioCache s) s = s.
Proof. now destruct s. Qed.

(** ** The cache *)

Section CacheFacts.
Variable cfg : config.

Lemma cleanCache_loop_skipn entries : forall n i s,
  (i + n <= length entries)%nat ->
  audioCache s = skipn i entries ->
  cleanCache_loop entries i n s
  = (Ok tt, with_audioCache (skipn (i + n) entries) s).
Proof.
  induction n as [|n IH]; intros i s Hlen Hc; simpl.
  - rewrite Nat.add_0_r, <- Hc, with_audioCache_same. reflexivity.
  - destruct (nth_error entries i) as [[k v]|] eqn:E.
    + unfold bind, modify. rewrite IH.
      * rewrite Nat.add_succ_r. now destruct s.
      * lia.
      * simpl. rewrite Hc, (skipn_nth_error _ _ _ E). apply delete_head.
    + apply nth_error_None in E. lia.
Qed.

(** [cleanCache] never throws; at or above capacity it drops the first
    [entriesToRemove] entries, below capacity it does nothing. *)
Lemma cleanCache_spec s :
  cleanCache cfg s
  = (Ok tt,
     if (MAX_CACHE_SIZE cfg <=? JsMap.size (audioCache s))%nat
     then with_audioCache (skipn (entriesToRemove cfg) (audioCache s)) s
     else s).
Proof.
  unfold cleanCache, bind, gets.
  destruct (MAX_CACHE_SIZE cfg <=? JsMap.size (audioCache s))%nat eqn:E.
  - apply Nat.leb_le in E.
    rewrite cleanCache_loop_skipn; [reflexivity | | reflexivity].
    unfold entriesToRemove, JsMap.size in *.
    assert (MAX_CACHE_SIZE cfg / 5 <= MAX_CACHE_SIZE cfg)%nat
      by (apply Nat.Div0.div_le_upper_bound; lia).
    lia.
  - reflexivity.
Qed.

Lemma cache_put_spec k r s :
  cache_put cfg k r s
  = (Ok tt,
     let s1 := snd (cleanCache cfg s) in
     with_audioCache (JsMap.set k r (audioCache s1)) s1).
Proof.
  unfold cache_put, bind, modify. rewrite cleanCache_spec. reflexivity.
Qed.

End CacheFacts.

(** ** The job registry *)

Lemma delete_middle {V} (kept rest : JsMap.t V) k v :
  JsMap.wf (kept ++ (k, v) :: rest) ->
  JsMap.delete k (kept ++ (k, v) :: rest) = kept ++ rest.
Proof.
  unfold JsMap.wf, JsMap.keys.
  induction kept as [|[k' v'] kept IH]; intros H.
  - apply delete_head.
  - simpl in *. inversion H as [|? ? Hn Hd]; subst.
    destruct (jsstring_eqb k k') eqn:E.
    + apply jsstring_eqb_eq in E. subst k'. exfalso. apply Hn.
      rewrite map_app. apply in_or_app. right. now left.
    + f_equal. now apply IH.
Qed.

Lemma wf_app_remove {V} (kept rest : JsMap.t V) e :
  JsMap.wf (kept ++ e :: rest) -> JsMap.wf (kept ++ rest).
Proof.
  unfold JsMap.wf, JsMap.keys. rewrite !map_app. simpl.
  apply NoDup_remove_1.
Qed.

Lemma sweep_fold now s : forall rest kept,
  JsMap.wf (kept ++ rest) ->
  fold_left (sweep_visit now 300000) rest (with_preloadQueue (kept ++ rest) s)
  = with_preloadQueue (kept ++ filter (sweep_keeps now s) rest) s.
Proof.
  induction rest as [|[id r] rest IH]; intros kept Hwf.
  - reflexivity.
  - cbn [fold_left filter].
    replace (sweep_keeps now s (id, r))
      with (negb (300000 <? now - PreloadData.startTime (heap s r)))
      by reflexivity.
    replace (sweep_visit now 300000
               (with_preloadQueue (kept ++ (id, r) :: rest) s) (id, r))
      with (if 300000 <? now - PreloadData.startTime (heap s r)
            then with_preloadQueue
                   (JsMap.delete id (kept ++ (id, r) :: rest)) s
            else with_preloadQueue (kept ++ (id, r) :: rest) s)
      by (unfold sweep_visit; cbn [with_preloadQueue heap preloadQueue];
          destruct (300000 <? now - PreloadData.startTime (heap s r));
          reflexivity).
    destruct (300000 <? now - PreloadData.startTime (heap s r)) eqn:E;
      cbn [negb].
    + rewrite delete_middle by exact Hwf.
      apply (IH kept). now apply wf_app_remove in Hwf.
    + replace (kept ++ (id, r) :: rest) with ((kept ++ [(id, r)]) ++ rest)
        in * by (rewrite <- app_assoc; reflexivity).
      rewrite (IH (kept ++ [(id, r)]) Hwf), <- app_assoc. reflexivity.
Qed.

(** The sweep keeps exactly the entries whose job is not older than the
    cutoff; it never reads a job's [status]. *)
Lemma swept_filter now s :
  JsMap.wf (preloadQueue s) ->
  swept now s = filter (sweep_keeps now s) (preloadQueue s).
Proof.
  intros Hwf. unfold swept, sweep, bind, gets, modify. cbn [snd].
  pose proof (sweep_fold now s (preloadQueue s) [] Hwf) as H.
  cbn [app] in H. replace (with_preloadQueue (preloadQueue s) s) with s in H
    by now destruct s.
  rewrite H. reflexivity.
Qed.

(** What [GET /preload/:preloadId] answers and leaves behind. *)
Lemma get_preload_spec preloadId startTime now ageNow s :
  get_preload preloadId startTime now ageNow s
  = match JsMap.get preloadId (preloadQueue s) with
    | None =>
        (Ok (json 404
               [(js "error", VStr (js "Preload request not found"));
                (js "preloadId", VStr preloadId)]), s)
    | Some r =>
        (Ok (json 200 (status_body preloadId (heap s r) (now - startTime))),
         if terminal (PreloadData.status (heap s r))
            && (300000 <? age ageNow (heap s r))
         then with_preloadQueue (JsMap.delete preloadId (preloadQueue s)) s
         else s)
    end.
Proof.
  unfold get_preload, try_catch, bind, gets, JsMap.has, age, modify, ret.
  cbv beta.
  destruct (JsMap.get preloadId (preloadQueue s)) as [r|] eqn:G;
    cbn [negb]; cbv beta iota; rewrite ?G.
  - destruct (terminal (PreloadData.status (heap s r))); cbn [andb];
      [destruct (300000 <? ageNow - PreloadData.startTime (heap s r))|];
      reflexivity.
  - reflexivity.
Qed.

Lemma has_filter {V} (f : jsstring * V -> bool) (q : JsMap.t V) id r :
  JsMap.wf q -> JsMap.get id q = Some r ->
  JsMap.has id (filter f q) = f (id, r).
Proof.
  unfold JsMap.wf. induction q as [|[k v] q IH]; simpl; intros Hwf Hget.
  - discriminate.
  - inversion Hwf as [|? ? Hn Hd]; subst.
    destruct (jsstring_eqb id k) eqn:E.
    + apply jsstring_eqb_eq in E. subst k. inversion Hget; subst v.
      destruct (f (id, r)).
      * unfold JsMap.has. simpl. now rewrite jsstring_eqb_refl.
      * destruct (JsMap.has id (filter f q)) eqn:F; [|reflexivity].
        apply has_keys in F. unfold JsMap.keys in F.
        apply in_map_iff in F. destruct F as [[k' v'] [Hk Hin]].
        apply filter_In in Hin. destruct Hin as [Hin _].
        exfalso. apply Hn. apply in_map_iff. now exists (k', v').
    + destruct (f (k, v)); [|now apply IH].
      unfold JsMap.has in *. simpl. rewrite E. now apply IH.
Qed.

(** ** The preload pass *)

Lemma only_cache_refl s : only_cache s s.
Proof. unfold only_cache. now destruct s. Qed.

Lemma only_cache_trans s1 s2 s3 :
  only_cache s1 s2 -> only_cache s2 s3 -> only_cache s1 s3.
Proof.
  unfold only_cache. intros H12 H23. rewrite H23 at 1. rewrite H12 at 1.
  reflexivity.
Qed.

Lemma only_cache_with c s : only_cache s (with_audioCache c s).
Proof. reflexivity. Qed.

Lemma only_cache_heap s s' : only_cache s s' -> heap s' = heap s.
Proof. unfold only_cache. intros H. rewrite H. reflexivity. Qed.

Section PassFacts.
Variable cfg : config.
Variable md5_hex : jsstring -> result jsstring.
Variable URLSearchParams_toString : list (jsstring * jsstring) -> result jsstring.
Variable toISOString : Z -> jsstring.

Lemma cleanCache_only_cache s : only_cache s (snd (cleanCache cfg s)).
Proof.
  rewrite cleanCache_spec. cbn [snd].
  destruct (_ <=? _)%nat; [apply only_cache_with | apply only_cache_refl].
Qed.

Lemma cache_put_only_cache k r s : only_cache s (snd (cache_put cfg k r s)).
Proof.
  rewrite cache_put_spec. cbn [snd].
  eapply only_cache_trans; [apply cleanCache_only_cache | apply only_cache_with].
Qed.

(** One turn of the loop of the pass. *)
Lemma resolve_texts_cons text rest language date i results s :
  resolve_texts cfg md5_hex URLSearchParams_toString toISOString
    (text :: rest) language date i results s
  = match generateCacheKey md5_hex text language with
    | Throw e => (Throw e, s)
    | Ok cacheKey =>
        if JsMap.has cacheKey (audioCache s) then
          resolve_texts cfg md5_hex URLSearchParams_toString toISOString
            rest language date (S i)
            (results ++ [ResultEntry.mk text (js "/play/" ++ cacheKey) true]) s
        else
          match generateAudioUrl cfg URLSearchParams_toString text language with
          | Throw e => (Throw e, s)
          | Ok externalUrl =>
              resolve_texts cfg md5_hex URLSearchParams_toString toISOString
                rest language date (S i)
                (results ++ [ResultEntry.mk text (js "/play/" ++ cacheKey) false])
                (snd (cache_put cfg cacheKey
                        (CacheRecord.mk externalUrl text language
                           (toISOString (date i))) s))
          end
    end.
Proof.
  cbn [resolve_texts]. unfold bind, lift, gets.
  destruct (generateCacheKey md5_hex text language) as [cacheKey|e];
    [|reflexivity].
  destruct (JsMap.has cacheKey (audioCache s)); [reflexivity|].
  destruct (generateAudioUrl cfg URLSearchParams_toString text language)
    as [externalUrl|e]; [|reflexivity].
  rewrite cache_put_spec. reflexivity.
Qed.

(** The loop of the pass changes the cache at most, and the array it
    returns extends [results] by one entry per text, in the order of
    [texts]. *)
Lemma resolve_texts_spec language date : forall texts i results s,
  only_cache s
    (snd (resolve_texts cfg md5_hex URLSearchParams_toString toISOString
            texts language date i results s)) /\
  match fst (resolve_texts cfg md5_hex URLSearchParams_toString toISOString
               texts language date i results s) with
  | Ok rs => map ResultEntry.text rs = map ResultEntry.text results ++ texts
  | Throw _ => True
  end.
Proof.
  induction texts as [|text rest IH]; intros i results s.
  - split; [apply only_cache_refl | simpl; now rewrite app_nil_r].
  - rewrite resolve_texts_cons.
    destruct (generateCacheKey md5_hex text language) as [cacheKey|e];
      [|split; [apply only_cache_refl | exact I]].
    destruct (JsMap.has cacheKey (audioCache s)).
    + destruct (IH (S i)
                  (results ++ [ResultEntry.mk text (js "/play/" ++ cacheKey) true])
                  s) as [Hf Ht].
      split; [exact Hf|].
      destruct (fst _); [|exact I].
      rewrite Ht, map_app, <- app_assoc. reflexivity.
    + destruct (generateAudioUrl cfg URLSearchParams_toString text language)
        as [externalUrl|e]; [|split; [apply only_cache_refl | exact I]].
      match goal with
      | |- context [resolve_texts _ _ _ _ rest _ _ ?j ?acc ?s1] =>
          destruct (IH j acc s1) as [Hf Ht]
      end.
      split; [eapply only_cache_trans;
                [apply cache_put_only_cache | exact Hf]|].
      destruct (fst _); [|exact I].
      rewrite Ht, map_app, <- app_assoc. reflexivity.
Qed.

(** The callback never throws: either the loop returned and the job is
    completed with what it returned, or it threw and the job is failed
    with the message, its [results] left as they were. *)
Lemma resolution_pass_spec im date now s :
  resolution_pass cfg md5_hex URLSearchParams_toString toISOString im date now s
  = match resolve_texts cfg md5_hex URLSearchParams_toString toISOString
            (imm_texts im) (imm_language im) date 0 [] s with
    | (Ok rs, s1) =>
        (Ok tt, heap_update (imm_preloadData im) (PreloadData.complete rs now) s1)
    | (Throw message, s1) =>
        (Ok tt, heap_update (imm_preloadData im) (PreloadData.fail message) s1)
    end.
Proof.
  unfold resolution_pass, try_catch, bind, modify.
  destruct (resolve_texts _ _ _ _ _ _ _ _ _ _) as [[rs|e] s1]; reflexivity.
Qed.

End PassFacts.

(** ** Validation *)

Lemma find_invalid elems :
  find (fun text => negb (isValidChineseText text)) elems = None
  <-> forallb isValidChineseText elems = true.
Proof.
  induction elems as [|e elems IH]; simpl.
  - tauto.
  - destruct (isValidChineseText e); simpl; [exact IH|].
    split; discriminate.
Qed.

Lemma chineseRegex_test_spec s :
  chineseRegex_test s = true
  <-> exists c, In c s /\
        ((0x4e00 <= c <= 0x9fff) \/ (0x3400 <= c <= 0x4dbf)).
Proof.
  unfold chineseRegex_test. rewrite existsb_exists.
  split; intros [c [Hin Hc]]; exists c; (split; [exact Hin|]).
  - apply orb_true_iff in Hc.
    destruct Hc as [Hc|Hc]; apply andb_true_iff in Hc; destruct Hc as [H1 H2];
      apply Z.leb_le in H1; apply Z.leb_le in H2; [left|right]; lia.
  - apply orb_true_iff.
    destruct Hc as [[H1 H2]|[H1 H2]]; [left|right]; apply andb_true_iff;
      split; now apply Z.leb_le.
Qed.

Lemma isValidChineseText_spec text :
  isValidChineseText text = true
  <-> exists s, text = VStr s /\ s <> [] /\ (length s <= 100)%nat /\
        exists c, In c s /\
          ((0x4e00 <= c <= 0x9fff) \/ (0x3400 <= c <= 0x4dbf)).
Proof.
  split.
  - destruct text as [| |b|n|s|l|o]; try discriminate;
      try (destruct b; discriminate); try (destruct n; discriminate).
    destruct s as [|c0 s]; [discriminate|].
    unfold isValidChineseText. cbn [falsy typeof_string negb orb].
    intros H. apply andb_true_iff in H. destruct H as [Hr Hl].
    exists (c0 :: s). repeat split.
    + discriminate.
    + now apply Nat.leb_le.
    + now apply chineseRegex_test_spec.
  - intros [s [-> [Hne [Hl Hc]]]].
    destruct s as [|c0 s]; [congruence|].
    unfold isValidChineseText. cbn [falsy typeof_string negb orb].
    apply andb_true_iff. split.
    + now apply chineseRegex_test_spec.
    + now apply Nat.leb_le.
Qed.

Section HandlerFacts.
Variable cfg : config.
Variable md5_hex : jsstring -> result jsstring.
Variable URLSearchParams_toString : list (jsstring * jsstring) -> result jsstring.
Variable toISOString : Z -> jsstring.

Lemma post_preload_rejects req_body preloadId startTime jobStart date now s :
  invalid_batch cfg req_body = true ->
  exists code props,
    post_preload cfg toISOString req_body preloadId startTime jobStart date now s
    = (Ok (json code props), s) /\ (code = 400 \/ code = 500).
Proof.
  unfold invalid_batch, post_preload, try_catch. intros H.
  destruct (field "texts" req_body) as [| |b|n|t|elems|o];
    try (eexists _, _; split; [reflexivity | now left]).
  destruct (length elems =? 0)%nat;
    [eexists _, _; split; [reflexivity | now left]|].
  destruct (10 <? length elems)%nat;
    [eexists _, _; split; [reflexivity | now left]|].
  destruct (find _ elems) as [bad|] eqn:F.
  - unfold bind, lift, ret.
    destruct (ToString bad) as [rendered|e];
      eexists _, _; (split; [reflexivity | auto]).
  - apply find_invalid in F. rewrite F in H. cbn [negb orb] in H.
    rewrite H. eexists _, _; split; [reflexivity | now left].
Qed.

Lemma post_preload_accepts req_body preloadId startTime jobStart date now s :
  invalid_batch cfg req_body = false ->
  exists texts props,
    field "texts" req_body = VArr texts /\
    post_preload cfg toISOString req_body preloadId startTime jobStart date now s
    = (Ok (json 200 props),
       accepted toISOString texts
         (field_default "language" (DEFAULT_LANGUAGE cfg) req_body)
         preloadId startTime jobStart date now s).
Proof.
  unfold invalid_batch, post_preload, try_catch. intros H.
  destruct (field "texts" req_body) as [| |b|n|t|elems|o]; try discriminate.
  apply orb_false_iff in H. destruct H as [H Hl].
  apply orb_false_iff in H. destruct H as [H Hv].
  apply orb_false_iff in H. destruct H as [H0 H10].
  rewrite H0, H10.
  apply negb_false_iff in Hv. apply find_invalid in Hv. rewrite Hv, Hl.
  exists elems. eexists. split; reflexivity.
Qed.

(** [POST /audio] answers 400 and leaves the state as it was when the
    text or the language is refused, and answers 200 or 500 otherwise. *)
Lemma post_audio_spec req_body startTime now date s :
  exists props s',
    post_audio cfg md5_hex URLSearchParams_toString toISOString
      req_body startTime now date s
    = (if isValidChineseText (field "text" req_body)
          && includes (SUPPORTED_LANGUAGES cfg)
               (field_default "language" (DEFAULT_LANGUAGE cfg) req_body)
       then (Ok (json (match generateCacheKey md5_hex (field "text" req_body)
                               (field_default "language" (DEFAULT_LANGUAGE cfg) req_body) with
                       | Ok cacheKey =>
                           if JsMap.has cacheKey (audioCache s) then 200
                           else match generateAudioUrl cfg URLSearchParams_toString
                                        (field "text" req_body)
                                        (field_default "language" (DEFAULT_LANGUAGE cfg) req_body) with
                                | Ok _ => 200
                                | Throw _ => 500
                                end
                       | Throw _ => 500
                       end) props), s')
       else (Ok (json 400 props), s)).
Proof.
  unfold post_audio, try_catch.
  destruct (isValidChineseText (field "text" req_body)); cbn [negb andb];
    [|eexists _, s; reflexivity].
  destruct (includes _ _); cbn [negb]; [|eexists _, s; reflexivity].
  unfold bind at 1, lift.
  destruct (generateCacheKey _ _ _) as [cacheKey|e];
    [|eexists _, _; reflexivity].
  unfold bind at 1, gets.
  destruct (JsMap.has cacheKey (audioCache s)).
  - unfold bind, recordMetrics, modify, ret. eexists _, _; reflexivity.
  - unfold bind at 1.
    destruct (generateAudioUrl _ _ _ _) as [audioUrl|e];
      [|eexists _, _; reflexivity].
    unfold bind at 1. rewrite cache_put_spec.
    unfold bind, recordMetrics, modify, ret. eexists _, _; reflexivity.
Qed.

End HandlerFacts.

Lemma heap_update_same r f s : heap (heap_update r f s) r = f (heap s r).
Proof. cbn [heap_update heap]. now rewrite Nat.eqb_refl. Qed.

(** ** What every reachable state satisfies *)

Lemma In_skipn_incl {A} (l : list A) n x : In x (skipn n l) -> In x l.
Proof.
  intros H. rewrite <- (firstn_skipn n l). apply in_or_app. now right.
Qed.

Lemma get_play_state cacheKey up s : snd (get_play cacheKey up s) = s.
Proof.
  unfold get_play, bind, gets, JsMap.has. cbv beta.
  destruct (JsMap.get cacheKey (audioCache s)) eqn:G;
    cbn [negb]; cbv beta iota; rewrite ?G; reflexivity.
Qed.

Section Invariant.
Variable cfg : config.
Variable md5_hex : jsstring -> result jsstring.
Variable URLSearchParams_toString : list (jsstring * jsstring) -> result jsstring.
Variable toISOString : Z -> jsstring.
Hypothesis capacity : (5 <= MAX_CACHE_SIZE cfg)%nat.

Local Abbreviation cache_ok := (cache_ok cfg URLSearchParams_toString).
Local Abbreviation invariant := (invariant cfg URLSearchParams_toString).

Lemma cache_put_ok k r s :
  cache_ok (audioCache s) ->
  generateAudioUrl cfg URLSearchParams_toString
    (CacheRecord.text r) (CacheRecord.language r)
  = Ok (CacheRecord.audioUrl r) ->
  cache_ok (audioCache (snd (cache_put cfg k r s))).
Proof.
  intros (Hwf & Hsize & Hloc) Hr.
  assert (Hdiv : (1 <= MAX_CACHE_SIZE cfg / 5)%nat)
    by (apply Nat.div_le_lower_bound; lia).
  rewrite cache_put_spec, cleanCache_spec. cbn [snd].
  unfold entriesToRemove, JsMap.size in *.
  set (n := (MAX_CACHE_SIZE cfg / 5)%nat) in *.
  assert (Hset : forall c,
            JsMap.wf c -> (forall x, In x c -> In x (audioCache s)) ->
            (length c < MAX_CACHE_SIZE cfg)%nat ->
            cache_ok (JsMap.set k r c)).
  { intros c Hc Hincl Hlen. split; [now apply wf_set|]. split.
    - pose proof (size_set c k r) as Hs. unfold JsMap.size in *.
      rewrite Hs. destruct (JsMap.has k c); lia.
    - intros k0 r0 Hin. apply In_set in Hin. destruct Hin as [Hin|Hin].
      + inversion Hin; subst. exact Hr.
      + apply (Hloc k0). now apply Hincl. }
  destruct (MAX_CACHE_SIZE cfg <=? length (audioCache s))%nat eqn:E;
    cbn [with_audioCache audioCache].
  - apply Nat.leb_le in E. apply Hset.
    + now apply wf_skipn.
    + intros x. apply In_skipn_incl.
    + rewrite length_skipn. lia.
  - apply Nat.leb_gt in E. apply Hset; auto.
Qed.

Lemma resolve_texts_ok language date : forall texts i results s,
  cache_ok (audioCache s) ->
  cache_ok (audioCache
    (snd (resolve_texts cfg md5_hex URLSearchParams_toString toISOString
            texts language date i results s))).
Proof.
  induction texts as [|text rest IH]; intros i results s Hok.
  - exact Hok.
  - rewrite resolve_texts_cons.
    destruct (generateCacheKey md5_hex text language) as [cacheKey|e];
      [|exact Hok].
    destruct (JsMap.has cacheKey (audioCache s)); [now apply IH|].
    destruct (generateAudioUrl cfg URLSearchParams_toString text language)
      as [externalUrl|e] eqn:Hurl; [|exact Hok].
    apply IH. now apply cache_put_ok.
Qed.

Lemma post_audio_invariant req_body startTime now date s :
  invariant s ->
  invariant (snd (post_audio cfg md5_hex URLSearchParams_toString toISOString
                    req_body startTime now date s)).
Proof.
  intros [Hc Hq].
  unfold post_audio, try_catch, bind, lift, gets, ret, throw, recordMetrics,
    modify.
  destruct (isValidChineseText (field "text" req_body)); cbn [negb];
    [|split; assumption].
  destruct (includes _ _); cbn [negb]; cbv beta iota; [|split; assumption].
  destruct (generateCacheKey _ _ _) as [cacheKey|e]; cbv beta iota;
    [|split; assumption].
  destruct (JsMap.has cacheKey (audioCache s)); cbv beta iota;
    [split; assumption|].
  destruct (generateAudioUrl _ _ _ _) as [audioUrl|e] eqn:Hurl; cbv beta iota;
    [|split; assumption].
  pose proof (cache_put_ok cacheKey
                (CacheRecord.mk audioUrl (field "text" req_body)
                   (field_default "language" (DEFAULT_LANGUAGE cfg) req_body)
                   (toISOString date)) s Hc Hurl) as Hput.
  pose proof (cache_put_only_cache cfg cacheKey
                (CacheRecord.mk audioUrl (field "text" req_body)
                   (field_default "language" (DEFAULT_LANGUAGE cfg) req_body)
                   (toISOString date)) s) as Hframe.
  destruct (cache_put cfg cacheKey _ s) as [[[]|e] s1]; cbn [snd] in *;
    (split; [exact Hput|]); rewrite Hframe; exact Hq.
Qed.

Lemma post_preload_invariant req_body preloadId startTime jobStart date now s :
  invariant s ->
  invariant (snd (post_preload cfg toISOString req_body preloadId startTime
                    jobStart date now s)).
Proof.
  intros [Hc Hq].
  destruct (invalid_batch cfg req_body) eqn:Hi.
  - destruct (post_preload_rejects cfg toISOString req_body preloadId
                startTime jobStart date now s Hi) as (code & props & E & Hcode).
    rewrite E. split; assumption.
  - destruct (post_preload_accepts cfg toISOString req_body preloadId
                startTime jobStart date now s Hi) as (texts & props & _ & E).
    rewrite E. split; [exact Hc|]. now apply wf_set.
Qed.

Lemma run_immediate_invariant date now s :
  invariant s ->
  invariant (snd (run_immediate cfg md5_hex URLSearchParams_toString
                    toISOString date now s)).
Proof.
  intros [Hc Hq]. unfold run_immediate, bind, gets, modify. cbv beta iota.
  destruct (immediates s) as [|im rest]; [split; assumption|].
  rewrite resolution_pass_spec.
  pose proof (resolve_texts_ok (imm_language im) date (imm_texts im) 0%nat []
                (with_immediates rest s) Hc) as Hok.
  destruct (resolve_texts_spec cfg md5_hex URLSearchParams_toString toISOString
              (imm_language im) date (imm_texts im) 0%nat []
              (with_immediates rest s)) as [Hframe _].
  destruct (resolve_texts _ _ _ _ _ _ _ _ _ _) as [[rs|e] s1];
    cbn [snd] in *; (split; [exact Hok|]);
    cbn [heap_update preloadQueue]; rewrite Hframe; exact Hq.
Qed.

Lemma get_preload_invariant preloadId startTime now ageNow s :
  invariant s -> invariant (snd (get_preload preloadId startTime now ageNow s)).
Proof.
  intros [Hc Hq]. rewrite get_preload_spec.
  destruct (JsMap.get preloadId (preloadQueue s)) as [r|]; [|split; assumption].
  destruct (terminal _ && _); [|split; assumption].
  split; [exact Hc|]. now apply wf_delete.
Qed.

Lemma sweep_invariant now s : invariant s -> invariant (snd (sweep now s)).
Proof.
  intros [Hc Hq]. split.
  - unfold sweep, bind, gets, modify. cbn [snd].
    pose proof (sweep_fold now s (preloadQueue s) [] Hq) as H.
    cbn [app] in H.
    replace (with_preloadQueue (preloadQueue s) s) with s in H
      by now destruct s.
    rewrite H. exact Hc.
  - fold (swept now s). rewrite swept_filter by exact Hq. now apply wf_filter.
Qed.

Lemma step_invariant s e :
  invariant s ->
  invariant (step cfg md5_hex URLSearchParams_toString toISOString s e).
Proof.
  intros H. destruct e; cbn [step].
  - now apply post_audio_invariant.
  - now rewrite get_play_state.
  - now apply post_preload_invariant.
  - now apply run_immediate_invariant.
  - now apply get_preload_invariant.
  - now apply sweep_invariant.
  - repeat split; try constructor; cbn; try lia. intros k r [].
Qed.

(** Whatever the requests and however the callbacks interleave, the
    cache is a map of at most [MAX_CACHE_SIZE] records with external
    locators, and the registry is a map. *)
Lemma run_invariant es :
  invariant (run cfg md5_hex URLSearchParams_toString toISOString es).
Proof.
  unfold run.
  assert (H0 : invariant initial).
  { repeat split; try constructor; cbn; try lia. intros k r []. }
  revert H0. generalize initial. induction es as [|e es IH]; intros s Hs.
  - exact Hs.
  - cbn [fold_left]. apply IH. now apply step_invariant.
Qed.

End Invariant.

(** With the capacity the file configures, no reachable cache holds more
    than 1000 records. *)
Lemma reachable_within_capacity md5_hex URLSearchParams_toString toISOString es :
  (JsMap.size
     (audioCache (run AUDIO_CONFIG md5_hex URLSearchParams_toString
                    toISOString es))
   <= MAX_CACHE_SIZE AUDIO_CONFIG)%nat.
Proof.
  assert (Hcap : (5 <= MAX_CACHE_SIZE AUDIO_CONFIG)%nat) by (cbn; lia).
  exact (proj1 (proj2 (proj1
    (run_invariant AUDIO_CONFIG md5_hex URLSearchParams_toString toISOString
       Hcap es)))).
Qed.

(** ** Facts about the handlers and the reachable states *)

(** *** [POST /audio], case by case *)

Section AudioCases.
Variable cfg : config.
Variable md5_hex : jsstring -> result jsstring.
Variable URLSearchParams_toString : list (jsstring * jsstring) -> result jsstring.
Variable toISOString : Z -> jsstring.
Variable req_body : list (jsstring * value).
Variables startTime now date : Z.
Variable s : state.

Local Abbreviation text := (field "text" req_body).
Local Abbreviation language :=
  (field_default "language" (DEFAULT_LANGUAGE cfg) req_body).
Local Abbreviation handler :=
  (post_audio cfg md5_hex URLSearchParams_toString toISOString req_body
     startTime now date s).

Lemma post_audio_hit cacheKey :
  isValidChineseText text = true ->
  includes (SUPPORTED_LANGUAGES cfg) language = true ->
  generateCacheKey md5_hex text language = Ok cacheKey ->
  JsMap.has cacheKey (audioCache s) = true ->
  handler
  = (Ok (json 200
           [(js "success", VBool true); (js "text", text);
            (js "language", language);
            (js "audioUrl", VStr (js "/play/" ++ cacheKey));
            (js "cached", VBool true);
            (js "responseTime", ms (now - startTime))]),
     snd (recordMetrics (js "/audio") (now - startTime) s)).
Proof.
  intros Hv Hl Hk Hhit.
  unfold post_audio, try_catch, bind, lift, gets, ret, throw, recordMetrics,
    modify.
  rewrite Hv, Hl. cbn [negb]. cbv beta iota. rewrite Hk. cbv beta iota.
  rewrite Hhit. reflexivity.
Qed.

Lemma post_audio_miss cacheKey audioUrl :
  isValidChineseText text = true ->
  includes (SUPPORTED_LANGUAGES cfg) language = true ->
  generateCacheKey md5_hex text language = Ok cacheKey ->
  JsMap.has cacheKey (audioCache s) = false ->
  generateAudioUrl cfg URLSearchParams_toString text language = Ok audioUrl ->
  handler
  = (Ok (json 200
           [(js "success", VBool true); (js "text", text);
            (js "language", language);
            (js "audioUrl", VStr (js "/play/" ++ cacheKey));
            (js "cached", VBool false);
            (js "responseTime", ms (now - startTime))]),
     snd (recordMetrics (js "/audio") (now - startTime)
            (snd (cache_put cfg cacheKey
                    (CacheRecord.mk audioUrl text language (toISOString date))
                    s)))).
Proof.
  intros Hv Hl Hk Hhit Hurl.
  unfold post_audio, try_catch, bind, lift, gets, ret, throw, recordMetrics,
    modify.
  rewrite Hv, Hl. cbn [negb]. cbv beta iota. rewrite Hk. cbv beta iota.
  rewrite Hhit. cbv beta iota. rewrite Hurl. cbv beta iota.
  rewrite cache_put_spec. reflexivity.
Qed.

(** Every other request is answered 400 or 500 from an untouched state. *)
Lemma post_audio_refused :
  (isValidChineseText text && includes (SUPPORTED_LANGUAGES cfg) language = false
   \/ (exists e, generateCacheKey md5_hex text language = Throw e)
   \/ (exists cacheKey e,
         generateCacheKey md5_hex text language = Ok cacheKey /\
         JsMap.has cacheKey (audioCache s) = false /\
         generateAudioUrl cfg URLSearchParams_toString text language = Throw e)) ->
  exists code props,
    handler = (Ok (json code props), s) /\ (code = 400 \/ code = 500).
Proof.
  unfold post_audio, try_catch, bind, lift, gets, ret, throw, recordMetrics,
    modify.
  intros [H|[[e H]|(cacheKey & e & Hk & Hhit & Hurl)]].
  - destruct (isValidChineseText text); cbn [negb andb] in *;
      [rewrite H|]; eexists _, _; (split; [reflexivity | now left]).
  - destruct (isValidChineseText text); cbn [negb];
      [|eexists _, _; (split; [reflexivity | now left])].
    destruct (includes _ language); cbn [negb]; cbv beta iota;
      [|eexists _, _; (split; [reflexivity | now left])].
    rewrite H. eexists _, _; (split; [reflexivity | now right]).
  - destruct (isValidChineseText text); cbn [negb];
      [|eexists _, _; (split; [reflexivity | now left])].
    destruct (includes _ language); cbn [negb]; cbv beta iota;
      [|eexists _, _; (split; [reflexivity | now left])].
    rewrite Hk. cbv beta iota. rewrite Hhit. cbv beta iota. rewrite Hurl.
    eexists _, _; (split; [reflexivity | now right]).
Qed.

(** The three lemmas cover every request. *)
Lemma post_audio_cases :
  (isValidChineseText text && includes (SUPPORTED_LANGUAGES cfg) language = false
   \/ (exists e, generateCacheKey md5_hex text language = Throw e)
   \/ (exists cacheKey e,
         generateCacheKey md5_hex text language = Ok cacheKey /\
         JsMap.has cacheKey (audioCache s) = false /\
         generateAudioUrl cfg URLSearchParams_toString text language = Throw e))
  \/ (exists cacheKey,
        isValidChineseText text = true /\
        includes (SUPPORTED_LANGUAGES cfg) language = true /\
        generateCacheKey md5_hex text language = Ok cacheKey /\
        (JsMap.has cacheKey (audioCache s) = true
         \/ (JsMap.has cacheKey (audioCache s) = false /\
             exists audioUrl,
               generateAudioUrl cfg URLSearchParams_toString text language
               = Ok audioUrl))).
Proof.
  destruct (isValidChineseText text) eqn:Hv; [|left; now left].
  destruct (includes _ language) eqn:Hl; [|left; now left].
  destruct (generateCacheKey md5_hex text language) as [cacheKey|e] eqn:Hk;
    [|left; right; left; now exists e].
  destruct (JsMap.has cacheKey (audioCache s)) eqn:Hhit.
  - right. exists cacheKey. auto.
  - destruct (generateAudioUrl cfg URLSearchParams_toString text language)
      as [audioUrl|e] eqn:Hurl.
    + right. exists cacheKey. repeat split; auto. right. eauto.
    + left. right. right. exists cacheKey, e. auto.
Qed.

End AudioCases.

(** *** Response-time metrics *)

Lemma get_set {V} (m : JsMap.t V) k k' v :
  JsMap.get k (JsMap.set k' v m)
  = if jsstring_eqb k k' then Some v else JsMap.get k m.
Proof.
  induction m as [|[k'' v''] m IH]; simpl.
  - reflexivity.
  - destruct (jsstring_eqb k' k'') eqn:E'; simpl.
    + apply jsstring_eqb_eq in E'. subst k''.
      destruct (jsstring_eqb k k'); reflexivity.
    + rewrite IH. destruct (jsstring_eqb k k'') eqn:E''; [|reflexivity].
      apply jsstring_eqb_eq in E''. subst k''.
      destruct (jsstring_eqb k k') eqn:E; [|reflexivity].
      apply jsstring_eqb_eq in E. subst k'.
      rewrite jsstring_eqb_refl in E'. discriminate.
Qed.

(** What [recordMetrics] leaves under every endpoint. *)
Lemma recordMetrics_get endpoint responseTime s endpoint' :
  JsMap.get endpoint'
    (requestMetrics (snd (recordMetrics endpoint responseTime s)))
  = if jsstring_eqb endpoint' endpoint
    then Some (if (100 <? length (samples endpoint s ++ [responseTime]))%nat
               then tl (samples endpoint s ++ [responseTime])
               else samples endpoint s ++ [responseTime])
    else JsMap.get endpoint' (requestMetrics s).
Proof.
  unfold recordMetrics, modify, samples, JsMap.has.
  cbn [snd with_requestMetrics requestMetrics].
  destruct (JsMap.get endpoint (requestMetrics s)) as [l|] eqn:G.
  - rewrite G, get_set. reflexivity.
  - rewrite get_set_same, !get_set.
    destruct (jsstring_eqb endpoint' endpoint); reflexivity.
Qed.

Lemma recordMetrics_frame endpoint responseTime s :
  audioCache (snd (recordMetrics endpoint responseTime s)) = audioCache s /\
  preloadQueue (snd (recordMetrics endpoint responseTime s)) = preloadQueue s /\
  same_jobs s (snd (recordMetrics endpoint responseTime s)).
Proof. repeat split. Qed.

Lemma window_length (l : list Z) (x : Z) :
  (length l <= 100)%nat ->
  (1 <= length (if (100 <? length (l ++ [x]))%nat then tl (l ++ [x])
                else l ++ [x]) <= 100)%nat.
Proof.
  intros H. destruct (100 <? length (l ++ [x]))%nat eqn:E.
  - apply Nat.ltb_lt in E. rewrite length_app in E. cbn in E.
    destruct l as [|y l]; cbn in *; [lia|].
    rewrite length_app. cbn. lia.
  - apply Nat.ltb_ge in E. rewrite length_app in *. cbn in *. lia.
Qed.

(** *** What each callback changes *)

Lemma with_preloadQueue_twice q q0 s s0 :
  s0 = with_preloadQueue q0 s ->
  with_preloadQueue q s0 = with_preloadQueue q s.
Proof. intros H. rewrite H. reflexivity. Qed.

Lemma sweep_only_queue now s :
  snd (sweep now s) = with_preloadQueue (swept now s) s.
Proof.
  unfold swept, sweep, bind, gets, modify. cbn [snd].
  assert (H : forall l s0, s0 = with_preloadQueue (preloadQueue s0) s ->
            fold_left (sweep_visit now 300000) l s0
            = with_preloadQueue
                (preloadQueue (fold_left (sweep_visit now 300000) l s0)) s).
  { induction l as [|[id r] l IH]; intros s0 H0; cbn [fold_left].
    - exact H0.
    - apply IH. unfold sweep_visit.
      destruct (300000 <? now - PreloadData.startTime (heap s0 r)).
      + cbn [with_preloadQueue preloadQueue].
        apply (with_preloadQueue_twice _ (preloadQueue s0)). exact H0.
      + exact H0. }
  apply (H (preloadQueue s) s). now destruct s.
Qed.

Lemma post_cache_clear_state startTime now s :
  snd (post_cache_clear startTime now s)
  = with_preloadQueue [] (with_audioCache [] s).
Proof. reflexivity. Qed.

Section Effects.
Variable cfg : config.
Variable md5_hex : jsstring -> result jsstring.
Variable URLSearchParams_toString : list (jsstring * jsstring) -> result jsstring.
Variable toISOString : Z -> jsstring.

Lemma run_immediate_eq date now s :
  run_immediate cfg md5_hex URLSearchParams_toString toISOString date now s
  = match immediates s with
    | [] => (Ok tt, s)
    | im :: rest =>
        match resolve_texts cfg md5_hex URLSearchParams_toString toISOString
                (imm_texts im) (imm_language im) date 0 []
                (with_immediates rest s) with
        | (Ok rs, s1) =>
            (Ok tt,
             heap_update (imm_preloadData im) (PreloadData.complete rs now) s1)
        | (Throw message, s1) =>
            (Ok tt,
             heap_update (imm_preloadData im) (PreloadData.fail message) s1)
        end
    end.
Proof.
  unfold run_immediate, bind, gets, modify. cbv beta iota.
  destruct (immediates s) as [|im rest]; [reflexivity|].
  apply resolution_pass_spec.
Qed.

(** A valid batch, taken apart. *)
Lemma valid_batch req_body :
  invalid_batch cfg req_body = false ->
  exists texts,
    field "texts" req_body = VArr texts /\
    (1 <= length texts <= 10)%nat /\
    forallb isValidChineseText texts = true /\
    includes (SUPPORTED_LANGUAGES cfg)
      (field_default "language" (DEFAULT_LANGUAGE cfg) req_body) = true.
Proof.
  unfold invalid_batch.
  destruct (field "texts" req_body) as [| |b|n|t|texts|o]; try discriminate.
  intros H.
  apply orb_false_iff in H. destruct H as [H Hl].
  apply orb_false_iff in H. destruct H as [H Hv].
  apply orb_false_iff in H. destruct H as [H0 H10].
  apply Nat.eqb_neq in H0. apply Nat.ltb_ge in H10.
  apply negb_false_iff in Hv. apply negb_false_iff in Hl.
  exists texts. repeat split; try assumption; lia.
Qed.

(** [POST /audio] leaves the registry, the jobs and the queued passes as
    they were; it records a sample or not, and inserts a derived record
    or leaves the cache as it was. *)
Lemma post_audio_effect req_body startTime now date s :
  let s' := snd (post_audio cfg md5_hex URLSearchParams_toString toISOString
                   req_body startTime now date s) in
  preloadQueue s' = preloadQueue s /\
  same_jobs s s' /\
  (requestMetrics s' = requestMetrics s \/
   exists s0, requestMetrics s0 = requestMetrics s /\
     s' = snd (recordMetrics (js "/audio") (now - startTime) s0)) /\
  (audioCache s' = audioCache s \/
   exists cacheKey r,
     record_derived cfg md5_hex URLSearchParams_toString (cacheKey, r) /\
     audioCache s' = audioCache (snd (cache_put cfg cacheKey r s))).
Proof.
  cbv zeta.
  destruct (post_audio_cases cfg md5_hex URLSearchParams_toString req_body s)
    as [H|(cacheKey & Hv & Hl & Hk & [Hhit|[Hhit [audioUrl Hurl]]])].
  - destruct (post_audio_refused cfg md5_hex URLSearchParams_toString
                toISOString req_body startTime now date s H)
      as (code & props & E & _).
    rewrite E. cbn [snd]. repeat split; auto.
  - rewrite (post_audio_hit cfg md5_hex URLSearchParams_toString toISOString
               req_body startTime now date s cacheKey Hv Hl Hk Hhit).
    cbn [snd]. repeat split; auto. right. exists s. auto.
  - rewrite (post_audio_miss cfg md5_hex URLSearchParams_toString toISOString
               req_body startTime now date s cacheKey audioUrl
               Hv Hl Hk Hhit Hurl).
    cbn [snd].
    pose proof (cache_put_only_cache cfg cacheKey
                  (CacheRecord.mk audioUrl (field "text" req_body)
                     (field_default "language" (DEFAULT_LANGUAGE cfg) req_body)
                     (toISOString date)) s) as Hframe.
    set (s1 := snd (cache_put cfg cacheKey _ s)) in *.
    split; [rewrite Hframe; reflexivity|].
    split; [unfold same_jobs; rewrite Hframe; repeat split|].
    split.
    + right. exists s1. split; [rewrite Hframe|]; reflexivity.
    + right. eexists cacheKey, _. split; [|reflexivity].
      repeat split; assumption.
Qed.

(** The loop of the pass keeps every property of the cached records that
    the records it inserts have. *)
Lemma cache_put_Forall (P : jsstring * CacheRecord.t -> Prop) k r s :
  Forall P (audioCache s) -> P (k, r) ->
  Forall P (audioCache (snd (cache_put cfg k r s))).
Proof.
  intros Hc Hr. rewrite cache_put_spec, cleanCache_spec. cbn [snd].
  apply Forall_forall. intros x Hx.
  rewrite Forall_forall in Hc.
  destruct (_ <=? _)%nat; cbn [with_audioCache audioCache] in Hx;
    apply In_set in Hx; destruct Hx as [->|Hx]; auto.
  apply Hc. eapply In_skipn_incl. exact Hx.
Qed.

Lemma resolve_texts_derived language date : forall texts i results s,
  forallb isValidChineseText texts = true ->
  includes (SUPPORTED_LANGUAGES cfg) language = true ->
  Forall (record_derived cfg md5_hex URLSearchParams_toString) (audioCache s) ->
  Forall (record_derived cfg md5_hex URLSearchParams_toString)
    (audioCache
       (snd (resolve_texts cfg md5_hex URLSearchParams_toString toISOString
               texts language date i results s))).
Proof.
  induction texts as [|text rest IH]; intros i results s Hv Hl Hc.
  - exact Hc.
  - cbn [forallb] in Hv. apply andb_true_iff in Hv. destruct Hv as [Hv Hvs].
    rewrite resolve_texts_cons.
    destruct (generateCacheKey md5_hex text language) as [cacheKey|e] eqn:Hk;
      [|exact Hc].
    destruct (JsMap.has cacheKey (audioCache s)); [now apply IH|].
    destruct (generateAudioUrl cfg URLSearchParams_toString text language)
      as [externalUrl|e] eqn:Hurl; [|exact Hc].
    apply IH; try assumption.
    apply cache_put_Forall; [exact Hc|]. repeat split; assumption.
Qed.

End Effects.

(** *** Jobs and their passes in the reachable states *)

Lemma same_jobs_refl s : same_jobs s s.
Proof. repeat split. Qed.

Lemma passes_pending_same s s' :
  same_jobs s s' -> passes_pending s -> passes_pending s'.
Proof.
  intros (Hh & Hi & Ha) (Hblank & Hims & Hnd).
  unfold passes_pending. rewrite Hh, Hi, Ha. auto.
Qed.

Lemma passes_pending_initial : passes_pending initial.
Proof.
  split; [reflexivity|]. split; [intros im []|constructor].
Qed.

Section Jobs.
Variable cfg : config.
Variable md5_hex : jsstring -> result jsstring.
Variable URLSearchParams_toString : list (jsstring * jsstring) -> result jsstring.
Variable toISOString : Z -> jsstring.

Local Abbreviation step' :=
  (step cfg md5_hex URLSearchParams_toString toISOString).
Local Abbreviation run' :=
  (run cfg md5_hex URLSearchParams_toString toISOString).

Lemma run_app es es' : run' (es ++ es') = fold_left step' es' (run' es).
Proof. apply fold_left_app. Qed.

(** The callbacks that create no job and run no pass. *)
Lemma step_same_jobs s e :
  match e with
  | PostPreload _ _ _ _ _ _ | RunImmediate _ _ => True
  | _ => same_jobs s (step' s e)
  end.
Proof.
  destruct e; cbn [step]; try exact I.
  - apply post_audio_effect.
  - rewrite get_play_state. apply same_jobs_refl.
  - rewrite get_preload_spec.
    destruct (JsMap.get preloadId (preloadQueue s)) as [r|];
      [destruct (terminal _ && _)|]; (split; [|split]; reflexivity).
  - rewrite sweep_only_queue. repeat split.
  - repeat split.
Qed.

Lemma accepted_jobs texts language preloadId startTime jobStart date now s :
  let s' := accepted toISOString texts language preloadId startTime jobStart
              date now s in
  heap s'
  = (fun r => if Nat.eqb r (allocated s)
              then PreloadData.mk preloadId texts language processing []
                     jobStart (toISOString date) None None None
              else heap s r) /\
  immediates s' = immediates s ++ [mkImmediate texts language (allocated s)] /\
  allocated s' = S (allocated s) /\
  audioCache s' = audioCache s /\
  preloadQueue s' = JsMap.set preloadId (allocated s) (preloadQueue s).
Proof. repeat split. Qed.

Lemma post_preload_passes_pending req_body preloadId startTime jobStart date
    now s r :
  passes_pending s ->
  passes_pending
    (snd (post_preload cfg toISOString req_body preloadId startTime jobStart
            date now s)) /\
  (terminal (PreloadData.status (heap s r)) = true ->
   heap (snd (post_preload cfg toISOString req_body preloadId startTime
                jobStart date now s)) r = heap s r).
Proof.
  intros (Hblank & Hims & Hnd).
  destruct (invalid_batch cfg req_body) eqn:Hi.
  - destruct (post_preload_rejects cfg toISOString req_body preloadId
                startTime jobStart date now s Hi) as (code & props & E & Hcode).
    rewrite E. cbn [snd]. unfold passes_pending. auto.
  - destruct (post_preload_accepts cfg toISOString req_body preloadId
                startTime jobStart date now s Hi) as (texts & props & _ & E).
    rewrite E. cbn [snd].
    destruct (accepted_jobs texts
                (field_default "language" (DEFAULT_LANGUAGE cfg) req_body)
                preloadId startTime jobStart date now s)
      as (Hh & Hi' & Ha & _).
    split.
    + unfold passes_pending. rewrite Hh, Hi', Ha. split; [|split].
      * intros r' Hr'.
        destruct (Nat.eqb_spec r' (allocated s)); [lia|]. apply Hblank. lia.
      * intros im H.
        apply in_app_or in H. destruct H as [H|[<-|[]]]; cbn.
        -- destruct (Hims _ H) as [Hlt Hst]. split; [lia|].
           destruct (Nat.eqb_spec (imm_preloadData im) (allocated s)); [lia|].
           exact Hst.
        -- split; [lia | now rewrite Nat.eqb_refl].
      * rewrite map_app. cbn. apply NoDup_app. repeat split.
        -- exact Hnd.
        -- repeat constructor. intros [].
        -- intros x Hx [<-|[]]. apply in_map_iff in Hx.
           destruct Hx as (im & Him & Hin). destruct (Hims _ Hin). lia.
    + intros Ht. rewrite Hh.
      destruct (Nat.eqb_spec r (allocated s)) as [->|]; [|reflexivity].
      rewrite Hblank in Ht by lia. discriminate.
Qed.

Lemma run_immediate_passes_pending date now s r :
  passes_pending s ->
  passes_pending
    (snd (run_immediate cfg md5_hex URLSearchParams_toString toISOString
            date now s)) /\
  (terminal (PreloadData.status (heap s r)) = true ->
   heap (snd (run_immediate cfg md5_hex URLSearchParams_toString toISOString
                date now s)) r = heap s r).
Proof.
  intros (Hblank & Hims & Hnd). rewrite run_immediate_eq.
  destruct (immediates s) as [|im rest] eqn:Hq.
  - cbn [snd]. unfold passes_pending. rewrite Hq.
    split; [|reflexivity]. split; [exact Hblank|]. split; [intros im []|].
    constructor.
  - destruct (resolve_texts_spec cfg md5_hex URLSearchParams_toString
                toISOString (imm_language im) date (imm_texts im) 0%nat []
                (with_immediates rest s)) as [Hframe _].
    destruct (Hims im (or_introl eq_refl)) as [Hlt Hproc].
    cbn [map] in Hnd. inversion Hnd as [|? ? Hnotin Hnd']; subst.
    assert (Hgoal : forall f s1,
              only_cache (with_immediates rest s) s1 ->
              passes_pending (heap_update (imm_preloadData im) f s1) /\
              (terminal (PreloadData.status (heap s r)) = true ->
               heap (heap_update (imm_preloadData im) f s1) r = heap s r)).
    { intros f s1 H1. unfold only_cache in H1. rewrite H1.
      unfold passes_pending.
      cbn [heap_update with_audioCache with_immediates heap immediates
           allocated audioCache preloadQueue requestMetrics].
      split.
      - split; [|split].
        + intros r' Hr'.
          destruct (Nat.eqb_spec r' (imm_preloadData im)); [lia|].
          now apply Hblank.
        + intros im' Him'. split; [now apply Hims; right|].
          destruct (Nat.eqb_spec (imm_preloadData im') (imm_preloadData im))
            as [Heq|]; [|now apply Hims; right].
          exfalso. apply Hnotin. rewrite <- Heq. now apply in_map.
        + exact Hnd'.
      - intros Ht.
        destruct (Nat.eqb_spec r (imm_preloadData im)) as [->|]; [|reflexivity].
        rewrite Hproc in Ht. discriminate. }
    destruct (resolve_texts _ _ _ _ _ _ _ _ _ _) as [[rs|e] s1];
      cbn [snd] in *; now apply Hgoal.
Qed.

Lemma step_passes_pending s e r :
  passes_pending s ->
  passes_pending (step' s e) /\
  (terminal (PreloadData.status (heap s r)) = true ->
   heap (step' s e) r = heap s r).
Proof.
  intros H. pose proof (step_same_jobs s e) as Hs.
  destruct e;
    try (split; [now apply (passes_pending_same s) | intros _; now rewrite (proj1 Hs)]).
  - now apply post_preload_passes_pending.
  - now apply run_immediate_passes_pending.
Qed.

Lemma run_passes_pending es : passes_pending (run' es).
Proof.
  unfold run. generalize passes_pending_initial. generalize initial.
  induction es as [|e es IH]; intros s Hs; [exact Hs|].
  cbn [fold_left]. apply IH. now apply (step_passes_pending s e 0%nat).
Qed.

End Jobs.

(** *** Cached records and metrics in the reachable states *)

Section Records.
Variable cfg : config.
Variable md5_hex : jsstring -> result jsstring.
Variable URLSearchParams_toString : list (jsstring * jsstring) -> result jsstring.
Variable toISOString : Z -> jsstring.

Local Abbreviation step' :=
  (step cfg md5_hex URLSearchParams_toString toISOString).
Local Abbreviation run' :=
  (run cfg md5_hex URLSearchParams_toString toISOString).
Local Abbreviation derived :=
  (record_derived cfg md5_hex URLSearchParams_toString).
Local Abbreviation metrics_ok rm :=
  (forall endpoint l, JsMap.get endpoint rm = Some l ->
     (1 <= length l <= 100)%nat /\
     (endpoint = js "/audio" \/ endpoint = js "/preload")).

Lemma step_records s e :
  Forall derived (audioCache s) ->
  Forall (pass_validated cfg) (immediates s) ->
  Forall derived (audioCache (step' s e)) /\
  Forall (pass_validated cfg) (immediates (step' s e)).
Proof.
  intros Hc Hq. destruct e; cbn [step].
  - destruct (post_audio_effect cfg md5_hex URLSearchParams_toString
                toISOString req_body startTime now date s)
      as (_ & (_ & Hi & _) & _ & Hcache).
    rewrite Hi. split; [|exact Hq].
    destruct Hcache as [->|(cacheKey & r & Hr & ->)]; [exact Hc|].
    now apply cache_put_Forall.
  - rewrite get_play_state. now split.
  - destruct (invalid_batch cfg req_body) eqn:Hi.
    + destruct (post_preload_rejects cfg toISOString req_body preloadId
                  startTime jobStart date now s Hi) as (code & props & E & Hcode).
      rewrite E. now split.
    + destruct (post_preload_accepts cfg toISOString req_body preloadId
                  startTime jobStart date now s Hi)
        as (texts & props & Ht & E).
      destruct (valid_batch cfg req_body Hi) as (texts' & Ht' & _ & Hv & Hl).
      rewrite Ht in Ht'. inversion Ht'; subst texts'.
      rewrite E. cbn [snd]. split; [exact Hc|].
      destruct (accepted_jobs toISOString texts
                  (field_default "language" (DEFAULT_LANGUAGE cfg) req_body)
                  preloadId startTime jobStart date now s)
        as (_ & -> & _).
      apply Forall_app. split; [exact Hq|].
      constructor; [|constructor]. now split.
  - rewrite run_immediate_eq.
    destruct (immediates s) as [|im rest] eqn:Him;
      [cbn [snd]; rewrite Him; now split|].
    inversion Hq as [|? ? [Hv Hl] Hrest]; subst.
    pose proof (resolve_texts_derived cfg md5_hex URLSearchParams_toString
                  toISOString (imm_language im) date (imm_texts im) 0%nat []
                  (with_immediates rest s) Hv Hl Hc) as Hd.
    destruct (resolve_texts_spec cfg md5_hex URLSearchParams_toString
                toISOString (imm_language im) date (imm_texts im) 0%nat []
                (with_immediates rest s)) as [Hframe _].
    destruct (resolve_texts _ _ _ _ _ _ _ _ _ _) as [[rs|m] s1];
      cbn [snd] in *; (split; [exact Hd|]);
      cbn [heap_update immediates]; rewrite Hframe; exact Hrest.
  - rewrite get_preload_spec.
    destruct (JsMap.get preloadId (preloadQueue s)) as [r|];
      [destruct (terminal _ && _)|]; now split.
  - rewrite sweep_only_queue. now split.
  - split; [constructor | exact Hq].
Qed.

Lemma run_records es :
  Forall derived (audioCache (run' es)) /\
  Forall (pass_validated cfg) (immediates (run' es)).
Proof.
  unfold run.
  assert (H0 : Forall derived (audioCache initial) /\
               Forall (pass_validated cfg) (immediates initial))
    by (split; constructor).
  revert H0. generalize initial.
  induction es as [|e es IH]; intros s Hs; [exact Hs|].
  cbn [fold_left]. apply IH. destruct Hs. now apply step_records.
Qed.

Lemma recordMetrics_ok endpoint responseTime s :
  endpoint = js "/audio" \/ endpoint = js "/preload" ->
  metrics_ok (requestMetrics s) ->
  metrics_ok (requestMetrics (snd (recordMetrics endpoint responseTime s))).
Proof.
  intros He Hm endpoint' l. rewrite recordMetrics_get.
  destruct (jsstring_eqb endpoint' endpoint) eqn:E; [|apply Hm].
  apply jsstring_eqb_eq in E. subst endpoint'.
  intros H. inversion H; subst l. split; [|exact He].
  apply window_length. unfold samples.
  destruct (JsMap.get endpoint (requestMetrics s)) as [l0|] eqn:G;
    [|cbn; lia].
  destruct (Hm _ _ G). lia.
Qed.

Lemma step_metrics s e :
  metrics_ok (requestMetrics s) -> metrics_ok (requestMetrics (step' s e)).
Proof.
  intros Hm. destruct e; cbn [step].
  - destruct (post_audio_effect cfg md5_hex URLSearchParams_toString
                toISOString req_body startTime now date s)
      as (_ & _ & [->|(s0 & H0 & ->)] & _); [exact Hm|].
    apply recordMetrics_ok; [now left|]. now rewrite H0.
  - now rewrite get_play_state.
  - destruct (invalid_batch cfg req_body) eqn:Hi.
    + destruct (post_preload_rejects cfg toISOString req_body preloadId
                  startTime jobStart date now s Hi) as (code & props & E & Hcode).
      now rewrite E.
    + destruct (post_preload_accepts cfg toISOString req_body preloadId
                  startTime jobStart date now s Hi)
        as (texts & props & Ht & E).
      rewrite E. cbn [snd]. unfold accepted.
      apply recordMetrics_ok; [now right|]. exact Hm.
  - rewrite run_immediate_eq.
    destruct (immediates s) as [|im rest] eqn:Him; [exact Hm|].
    destruct (resolve_texts_spec cfg md5_hex URLSearchParams_toString
                toISOString (imm_language im) date (imm_texts im) 0%nat []
                (with_immediates rest s)) as [Hframe _].
    destruct (resolve_texts _ _ _ _ _ _ _ _ _ _) as [[rs|m] s1];
      cbn [snd] in *; cbn [heap_update requestMetrics]; rewrite Hframe;
      exact Hm.
  - rewrite get_preload_spec.
    destruct (JsMap.get preloadId (preloadQueue s)) as [r|];
      [destruct (terminal _ && _)|]; exact Hm.
  - rewrite sweep_only_queue. exact Hm.
  - exact Hm.
Qed.

Lemma run_metrics es : metrics_ok (requestMetrics (run' es)).
Proof.
  unfold run.
  assert (H0 : metrics_ok (requestMetrics initial))
    by (intros endpoint l H; discriminate).
  revert H0. generalize initial.
  induction es as [|e es IH]; intros s Hs; [exact Hs|].
  cbn [fold_left]. apply IH. now apply step_metrics.
Qed.

End Records.

(** *** Averages *)

Lemma fold_add_bounds (l : list Z) (lo hi : Z) : forall acc,
  (forall x, In x l -> lo <= x <= hi) ->
  acc + Z.of_nat (length l) * lo <= fold_left Z.add l acc
  <= acc + Z.of_nat (length l) * hi.
Proof.
  induction l as [|y l IH]; intros acc H.
  - cbn. lia.
  - cbn [fold_left length]. rewrite Nat2Z.inj_succ.
    assert (Hy : lo <= y <= hi) by (apply H; now left).
    assert (Hl : forall x, In x l -> lo <= x <= hi)
      by (intros x Hx; apply H; now right).
    specialize (IH (acc + y) Hl). lia.
Qed.

Lemma average_bounds (l : list Z) (lo hi : Z) :
  l <> [] -> (forall x, In x l -> lo <= x <= hi) -> lo <= average l <= hi.
Proof.
  intros Hne H. unfold average, Math_round_quotient.
  pose proof (fold_add_bounds l lo hi 0 H) as Hs.
  assert (Hn : 0 < Z.of_nat (length l)) by (destruct l; [congruence | cbn; lia]).
  set (n := Z.of_nat (length l)) in *. set (sum := fold_left Z.add l 0) in *.
  split.
  - apply Z.div_le_lower_bound; lia.
  - apply Z.lt_succ_r. apply Z.div_lt_upper_bound; lia.
Qed.

Lemma avgResponseTimes_prop metrics endpoint times :
  JsMap.get endpoint metrics = Some times -> times <> [] ->
  prop endpoint (avgResponseTimes metrics) = Some (VNum (average times)).
Proof.
  induction metrics as [|[k l] metrics IH]; cbn [JsMap.get]; intros G Hne.
  - discriminate.
  - unfold avgResponseTimes. cbn [flat_map].
    fold (avgResponseTimes metrics).
    destruct (jsstring_eqb endpoint k) eqn:E.
    + inversion G; subst l.
      destruct times as [|x times]; [congruence|].
      cbn [length Nat.ltb Nat.leb app prop]. now rewrite E.
    + destruct (0 <? length l)%nat; cbn [app prop]; [rewrite E|];
        now apply IH.
Qed.

Lemma last_window (l : list Z) (x : Z) :
  last (if (100 <? length (l ++ [x]))%nat then tl (l ++ [x]) else l ++ [x]) 0
  = x.
Proof.
  destruct (100 <? length (l ++ [x]))%nat eqn:E; [|apply last_last].
  apply Nat.ltb_lt in E. destruct l as [|y l]; [cbn in E; lia|].
  cbn [app tl]. apply last_last.
Qed.

Lemma samples_recordMetrics endpoint responseTime s :
  samples endpoint (snd (recordMetrics endpoint responseTime s))
  = if (100 <? length (samples endpoint s ++ [responseTime]))%nat
    then tl (samples endpoint s ++ [responseTime])
    else samples endpoint s ++ [responseTime].
Proof.
  unfold samples at 1. now rewrite recordMetrics_get, jsstring_eqb_refl.
Qed.

(** *** The pass of the second variant *)

Section DirectPassFacts.
Variable cfg : config.
Variable md5_hex : jsstring -> result jsstring.
Variable URLSearchParams_toString : list (jsstring * jsstring) -> result jsstring.
Variable toISOString : Z -> jsstring.

Lemma resolve_texts_direct_cons text rest language date i results s :
  resolve_texts_direct cfg md5_hex URLSearchParams_toString toISOString
    (text :: rest) language date i results s
  = match generateCacheKey md5_hex text language with
    | Throw e => (Throw e, s)
    | Ok cacheKey =>
        match JsMap.get cacheKey (audioCache s) with
        | Some cachedData =>
            resolve_texts_direct cfg md5_hex URLSearchParams_toString
              toISOString rest language date (S i)
              (results
               ++ [ResultEntry.mk text (CacheRecord.audioUrl cachedData) true])
              s
        | None =>
            match generateAudioUrl cfg URLSearchParams_toString text language
            with
            | Throw e => (Throw e, s)
            | Ok audioUrl =>
                resolve_texts_direct cfg md5_hex URLSearchParams_toString
                  toISOString rest language date (S i)
                  (results ++ [ResultEntry.mk text audioUrl false])
                  (snd (cache_put cfg cacheKey
                          (CacheRecord.mk audioUrl text language
                             (toISOString (date i))) s))
            end
        end
    end.
Proof.
  cbn [resolve_texts_direct]. unfold bind, lift, gets, JsMap.has.
  destruct (generateCacheKey md5_hex text language) as [cacheKey|e];
    [|reflexivity].
  destruct (JsMap.get cacheKey (audioCache s)) as [cachedData|] eqn:G;
    cbv beta iota; rewrite ?G; [reflexivity|].
  destruct (generateAudioUrl cfg URLSearchParams_toString text language)
    as [audioUrl|e]; [|reflexivity].
  rewrite cache_put_spec. reflexivity.
Qed.

(** From the same state the two loops end in the same state, both
    return or both throw the same message, and what they return has the
    same texts and the same [cached] flags. *)
Lemma resolve_texts_variants language date : forall texts i r1 r2 s,
  map ResultEntry.text r1 = map ResultEntry.text r2 ->
  map ResultEntry.cached r1 = map ResultEntry.cached r2 ->
  snd (resolve_texts cfg md5_hex URLSearchParams_toString toISOString
         texts language date i r1 s)
  = snd (resolve_texts_direct cfg md5_hex URLSearchParams_toString toISOString
           texts language date i r2 s) /\
  match fst (resolve_texts cfg md5_hex URLSearchParams_toString toISOString
               texts language date i r1 s),
        fst (resolve_texts_direct cfg md5_hex URLSearchParams_toString
               toISOString texts language date i r2 s) with
  | Ok a, Ok b =>
      map ResultEntry.text a = map ResultEntry.text b /\
      map ResultEntry.cached a = map ResultEntry.cached b
  | Throw m, Throw m' => m = m'
  | _, _ => False
  end.
Proof.
  induction texts as [|text rest IH]; intros i r1 r2 s Ht Hc.
  - cbn. auto.
  - rewrite resolve_texts_cons, resolve_texts_direct_cons.
    destruct (generateCacheKey md5_hex text language) as [cacheKey|e];
      [|cbn; auto].
    unfold JsMap.has.
    destruct (JsMap.get cacheKey (audioCache s)) as [cachedData|].
    + apply IH; rewrite !map_app; cbn; congruence.
    + destruct (generateAudioUrl cfg URLSearchParams_toString text language)
        as [audioUrl|e]; [|cbn; auto].
      apply IH; rewrite !map_app; cbn; congruence.
Qed.

Lemma resolution_pass_direct_spec im date now s :
  resolution_pass_direct cfg md5_hex URLSearchParams_toString toISOString
    im date now s
  = match resolve_texts_direct cfg md5_hex URLSearchParams_toString
            toISOString (imm_texts im) (imm_language im) date 0 [] s with
    | (Ok rs, s1) =>
        (Ok tt, heap_update (imm_preloadData im) (PreloadData.complete rs now) s1)
    | (Throw message, s1) =>
        (Ok tt, heap_update (imm_preloadData im) (PreloadData.fail message) s1)
    end.
Proof.
  unfold resolution_pass_direct, try_catch, bind, modify.
  destruct (resolve_texts_direct _ _ _ _ _ _ _ _ _ _) as [[rs|e] s1];
    reflexivity.
Qed.

(** The entries of the first variant refer to the cache key of their
    text. *)
Lemma resolve_texts_references language date : forall texts i results s rs,
  fst (resolve_texts cfg md5_hex URLSearchParams_toString toISOString
         texts language date i results s) = Ok rs ->
  exists added,
    rs = results ++ added /\
    Forall2 (fun text e =>
               ResultEntry.text e = text /\
               exists cacheKey,
                 generateCacheKey md5_hex text language = Ok cacheKey /\
                 ResultEntry.audioUrl e = js "/play/" ++ cacheKey)
            texts added.
Proof.
  induction texts as [|text rest IH]; intros i results s rs H.
  - cbn in H. inversion H; subst. exists []. rewrite app_nil_r.
    split; [reflexivity | constructor].
  - rewrite resolve_texts_cons in H.
    destruct (generateCacheKey md5_hex text language) as [cacheKey|e] eqn:Hk;
      [|discriminate].
    assert (Hstep : forall cached s1,
              fst (resolve_texts cfg md5_hex URLSearchParams_toString
                     toISOString rest language date (S i)
                     (results
                      ++ [ResultEntry.mk text (js "/play/" ++ cacheKey) cached])
                     s1) = Ok rs ->
              exists added,
                rs = results ++ added /\
                Forall2 (fun text e =>
                           ResultEntry.text e = text /\
                           exists cacheKey,
                             generateCacheKey md5_hex text language
                             = Ok cacheKey /\
                             ResultEntry.audioUrl e = js "/play/" ++ cacheKey)
                        (text :: rest) added).
    { intros cached s1 H1. destruct (IH _ _ _ _ H1) as (added & -> & Hall).
      exists (ResultEntry.mk text (js "/play/" ++ cacheKey) cached :: added).
      split; [now rewrite <- app_assoc|].
      constructor; [|exact Hall]. split; [reflexivity|]. now exists cacheKey. }
    destruct (JsMap.has cacheKey (audioCache s)); [now apply (Hstep true s)|].
    destruct (generateAudioUrl cfg URLSearchParams_toString text language)
      as [externalUrl|e]; [|discriminate].
    eapply Hstep. exact H.
Qed.

End DirectPassFacts.

(** *** Keys *)

Lemma app_inj_same_length {A} (b d : list A) : forall a c,
  length b = length d -> a ++ b = c ++ d -> a = c /\ b = d.
Proof.
  induction a as [|x a IH]; intros [|y c] Hl H; cbn in H.
  - auto.
  - apply (f_equal (@length A)) in H. cbn in H. rewrite length_app in H. lia.
  - apply (f_equal (@length A)) in H. cbn in H. rewrite length_app in H. lia.
  - inversion H; subst. destruct (IH c Hl H2). split; congruence.
Qed.

Lemma supported_language language :
  includes (SUPPORTED_LANGUAGES AUDIO_CONFIG) language = true ->
  language = VStr (js "zh-CN") \/ language = VStr (js "zh-TW").
Proof.
  destruct language as [| |b|n|l|a|o]; try discriminate.
  cbn [includes SUPPORTED_LANGUAGES AUDIO_CONFIG existsb]. intros H.
  apply orb_true_iff in H. destruct H as [H|H].
  - apply jsstring_eqb_eq in H. left. congruence.
  - apply orb_true_iff in H. destruct H as [H|H]; [|discriminate].
    apply jsstring_eqb_eq in H. right. congruence.
Qed.

Lemma get_play_present cacheKey up s cachedData :
  JsMap.get cacheKey (audioCache s) = Some cachedData ->
  get_play cacheKey up s
  = (Ok ([https_get (CacheRecord.audioUrl cachedData); request_on_error;
          request_setTimeout 10000] ++ play_callback up), s).
Proof.
  intros G. unfold get_play, bind, gets, JsMap.has. cbv beta.
  rewrite G. cbn [negb]. cbv beta iota. rewrite G. reflexivity.
Qed.

Lemma get_play_absent cacheKey up s :
  JsMap.get cacheKey (audioCache s) = None ->
  get_play cacheKey up s
  = (Ok [res_json (json 404
           [(js "error", VStr (js "Audio not found"));
            (js "details", VStr (js "The requested audio has not been cached or has expired"))])],
     s).
Proof.
  intros G. unfold get_play, bind, gets, JsMap.has. cbv beta.
  rewrite G. reflexivity.
Qed.

(** *** Insertions into the cache *)







Section Insertions.
Variable cfg : config.
Variable md5_hex : jsstring -> result jsstring.
Variable URLSearchParams_toString : list (jsstring * jsstring) -> result jsstring.
Variable toISOString : Z -> jsstring.

Local Abbreviation step' :=
  (step cfg md5_hex URLSearchParams_toString toISOString).




End Insertions.

(** *** The registry when the timers run *)

Lemma In_delete_incl {V} (m : JsMap.t V) k x :
  In x (JsMap.delete k m) -> In x m.
Proof.
  induction m as [|[k' v'] m IH]; simpl; [tauto|].
  destruct (jsstring_eqb k k'); simpl; tauto.
Qed.

Lemma registry_tracked_same s s' :
  same_jobs s s' ->
  (forall x, In x (preloadQueue s') -> In x (preloadQueue s)) ->
  registry_tracked s -> registry_tracked s'.
Proof.
  intros (Hh & Hi & Ha) Hincl H id r Hin. rewrite Hh, Hi, Ha.
  apply (H id r). now apply Hincl.
Qed.

Lemma registry_tracked_initial : registry_tracked initial.
Proof. intros id r []. Qed.

Section Registry.
Variable cfg : config.
Variable md5_hex : jsstring -> result jsstring.
Variable URLSearchParams_toString : list (jsstring * jsstring) -> result jsstring.
Variable toISOString : Z -> jsstring.

Local Abbreviation step' :=
  (step cfg md5_hex URLSearchParams_toString toISOString).
Local Abbreviation run' :=
  (run cfg md5_hex URLSearchParams_toString toISOString).

Lemma step_registry_wf s e :
  JsMap.wf (preloadQueue s) -> JsMap.wf (preloadQueue (step' s e)).
Proof.
  intros Hwf. destruct e; cbn [step].
  - destruct (post_audio_effect cfg md5_hex URLSearchParams_toString
                toISOString req_body startTime now date s) as [Hq _].
    rewrite Hq. exact Hwf.
  - rewrite get_play_state. exact Hwf.
  - destruct (invalid_batch cfg req_body) eqn:Hi.
    + destruct (post_preload_rejects cfg toISOString req_body preloadId
                  startTime jobStart date now s Hi) as (code & props & E & _).
      rewrite E. exact Hwf.
    + destruct (post_preload_accepts cfg toISOString req_body preloadId
                  startTime jobStart date now s Hi) as (texts & props & _ & E).
      rewrite E. cbn [snd]. now apply wf_set.
  - rewrite run_immediate_eq.
    destruct (immediates s) as [|im rest]; [exact Hwf|].
    destruct (resolve_texts_spec cfg md5_hex URLSearchParams_toString
                toISOString (imm_language im) date (imm_texts im) 0%nat []
                (with_immediates rest s)) as [Hframe _].
    destruct (resolve_texts _ _ _ _ _ _ _ _ _ _) as [[rs|message] s1];
      cbn [snd] in *; unfold only_cache in Hframe; rewrite Hframe; exact Hwf.
  - rewrite get_preload_spec.
    destruct (JsMap.get preloadId (preloadQueue s)) as [r|]; [|exact Hwf].
    destruct (terminal _ && _); [|exact Hwf]. now apply wf_delete.
  - rewrite sweep_only_queue. cbn [with_preloadQueue preloadQueue].
    rewrite swept_filter by exact Hwf. now apply wf_filter.
  - constructor.
Qed.

Lemma run_registry_wf es : JsMap.wf (preloadQueue (run' es)).
Proof.
  unfold run.
  assert (H : forall s, JsMap.wf (preloadQueue s) ->
            JsMap.wf (preloadQueue (fold_left step' es s))).
  { induction es as [|e es IH]; intros s Hs; cbn [fold_left]; [exact Hs|].
    apply IH. now apply step_registry_wf. }
  apply H. constructor.
Qed.

Lemma step_registry_tracked s e :
  JsMap.wf (preloadQueue s) ->
  registry_tracked s -> registry_tracked (step' s e).
Proof.
  intros Hwf H.
  pose proof (step_same_jobs cfg md5_hex URLSearchParams_toString toISOString
                s e) as Hsame.
  destruct e; cbn [step] in *.
  - apply (registry_tracked_same s _ Hsame); [|exact H].
    destruct (post_audio_effect cfg md5_hex URLSearchParams_toString
                toISOString req_body startTime now date s) as [Hq _].
    rewrite Hq. auto.
  - rewrite get_play_state. exact H.
  - destruct (invalid_batch cfg req_body) eqn:Hi.
    + destruct (post_preload_rejects cfg toISOString req_body preloadId
                  startTime jobStart date now s Hi) as (code & props & E & _).
      rewrite E. exact H.
    + destruct (post_preload_accepts cfg toISOString req_body preloadId
                  startTime jobStart date now s Hi) as (texts & props & _ & E).
      rewrite E. cbn [snd].
      destruct (accepted_jobs toISOString texts
                  (field_default "language" (DEFAULT_LANGUAGE cfg) req_body)
                  preloadId startTime jobStart date now s)
        as (Hh & Hi' & Ha & _ & Hq).
      intros id r Hin. rewrite Hh, Hi', Ha, map_app. rewrite Hq in Hin.
      apply In_set in Hin. destruct Hin as [Hnew|Hold].
      * inversion Hnew; subst. split; [lia|]. intros _.
        apply in_or_app. right. now left.
      * destruct (H id r Hold) as [Hlt Hp]. split; [lia|].
        destruct (Nat.eqb_spec r (allocated s)); [lia|].
        intros Hs. apply in_or_app. left. now apply Hp.
  - rewrite run_immediate_eq.
    destruct (immediates s) as [|im rest] eqn:Hq; [exact H|].
    destruct (resolve_texts_spec cfg md5_hex URLSearchParams_toString
                toISOString (imm_language im) date (imm_texts im) 0%nat []
                (with_immediates rest s)) as [Hframe _].
    assert (Hgoal : forall f s1,
              only_cache (with_immediates rest s) s1 ->
              (forall d, PreloadData.status (f d) <> processing) ->
              registry_tracked (heap_update (imm_preloadData im) f s1)).
    { intros f s1 H1 Hf. unfold only_cache in H1. rewrite H1.
      intros id r Hin.
      cbn [heap_update with_audioCache with_immediates heap immediates
           allocated audioCache preloadQueue requestMetrics] in *.
      destruct (H id r Hin) as [Hlt Hp]. split; [exact Hlt|].
      destruct (Nat.eqb_spec r (imm_preloadData im)) as [->|Hne].
      - intros Hs. now apply Hf in Hs.
      - intros Hs. specialize (Hp Hs). rewrite Hq in Hp. cbn [map] in Hp.
        destruct Hp as [Heq|Hin']; [congruence | exact Hin']. }
    destruct (resolve_texts _ _ _ _ _ _ _ _ _ _) as [[rs|message] s1];
      cbn [snd] in *; apply Hgoal; try exact Hframe; intros d; discriminate.
  - apply (registry_tracked_same s _ Hsame); [|exact H].
    rewrite get_preload_spec.
    destruct (JsMap.get preloadId (preloadQueue s)) as [r|]; [|auto].
    destruct (terminal _ && _); [|auto].
    cbn [with_preloadQueue preloadQueue]. intros x. apply In_delete_incl.
  - apply (registry_tracked_same s _ Hsame); [|exact H].
    rewrite sweep_only_queue. cbn [with_preloadQueue preloadQueue].
    rewrite swept_filter by exact Hwf. intros x Hx.
    apply filter_In in Hx. tauto.
  - intros id r [].
Qed.

Lemma run_registry_tracked es : registry_tracked (run' es).
Proof.
  unfold run.
  assert (H : forall s, JsMap.wf (preloadQueue s) -> registry_tracked s ->
            registry_tracked (fold_left step' es s)).
  { induction es as [|e es IH]; intros s Hwf Hs; cbn [fold_left]; [exact Hs|].
    apply IH; [now apply step_registry_wf | now apply step_registry_tracked]. }
  apply H; [constructor | apply registry_tracked_initial].
Qed.

(** When no pass is queued every job of the registry is terminal, and
    the sweep, which tests the age alone, removes the expired jobs and
    no other. *)
Lemma drained_registry_terminal es id r :
  immediates (run' es) = [] ->
  In (id, r) (preloadQueue (run' es)) ->
  terminal (PreloadData.status (heap (run' es) r)) = true.
Proof.
  intros Hdrained Hget.
  destruct (run_registry_tracked es id r Hget) as [_ Hp].
  rewrite Hdrained in Hp.
  destruct (PreloadData.status (heap (run' es) r)); try reflexivity.
  now destruct Hp.
Qed.

End Registry.

(** ** The claims of the specification *)

(** C1. An insertion into the cache first runs [cleanCache]: when the
    cache holds at least [MAX_CACHE_SIZE] entries, exactly
    [floor(MAX_CACHE_SIZE * 0.2)] entries are evicted and they are the
    oldest ones, a prefix of the insertion order; below capacity nothing
    is evicted; the record is then set, and the cache ends within
    capacity.  With capacity 5 and keys A to E inserted in order, inserting
    F evicts A alone and leaves B, C, D, E, F. *)
Theorem put_evicts_oldest_fifth (cfg : config) (k : jsstring)
    (r : CacheRecord.t) (s : state) :
  (5 <= MAX_CACHE_SIZE cfg)%nat ->
  (JsMap.size (audioCache s) <= MAX_CACHE_SIZE cfg)%nat ->
  fst (cache_put cfg k r s) = Ok tt /\
  cache_after_put cfg k r s = JsMap.set k r (cache_after_clean cfg s) /\
  ((MAX_CACHE_SIZE cfg <= JsMap.size (audioCache s))%nat ->
     audioCache s
     = firstn (MAX_CACHE_SIZE cfg / 5) (audioCache s) ++ cache_after_clean cfg s
     /\ length (firstn (MAX_CACHE_SIZE cfg / 5) (audioCache s))
        = (MAX_CACHE_SIZE cfg / 5)%nat) /\
  ((JsMap.size (audioCache s) < MAX_CACHE_SIZE cfg)%nat ->
     cache_after_clean cfg s = audioCache s) /\
  (JsMap.size (cache_after_put cfg k r s) <= MAX_CACHE_SIZE cfg)%nat /\
  audioCache (put_all capacity5 (entries_of [js "A"; js "B"; js "C"; js "D"; js "E"]) initial)
  = entries_of [js "A"; js "B"; js "C"; js "D"; js "E"] /\
  cache_after_put capacity5 (js "F") (record_of (js "F"))
    (put_all capacity5 (entries_of [js "A"; js "B"; js "C"; js "D"; js "E"]) initial)
  = entries_of [js "B"; js "C"; js "D"; js "E"; js "F"].
Proof.
  intros Hcap Hsize.
  assert (Hdiv : (1 <= MAX_CACHE_SIZE cfg / 5)%nat)
    by (apply Nat.div_le_lower_bound; lia).
  assert (Hle : (MAX_CACHE_SIZE cfg / 5 <= MAX_CACHE_SIZE cfg)%nat)
    by (apply Nat.Div0.div_le_upper_bound; lia).
  unfold cache_after_put, cache_after_clean.
  rewrite cache_put_spec, cleanCache_spec. cbn [fst snd].
  unfold entriesToRemove, JsMap.size in *.
  destruct (MAX_CACHE_SIZE cfg <=? length (audioCache s))%nat eqn:E.
  - apply Nat.leb_le in E. cbn [with_audioCache audioCache].
    repeat split.
    + symmetry. apply firstn_skipn.
    + apply firstn_length_le. lia.
    + lia.
    + pose proof (size_set (skipn (MAX_CACHE_SIZE cfg / 5) (audioCache s)) k r) as Hs.
      unfold JsMap.size in Hs. rewrite Hs, length_skipn.
      destruct (JsMap.has k _); lia.
  - apply Nat.leb_gt in E. cbn [with_audioCache audioCache].
    repeat split.
    + lia.
    + lia.
    + pose proof (size_set (audioCache s) k r) as Hs.
      unfold JsMap.size in Hs. rewrite Hs.
      destruct (JsMap.has k _); lia.
Qed.

Lemma put_evicts_oldest_fifth_witness :
  (5 <= MAX_CACHE_SIZE capacity5)%nat /\
  (JsMap.size (audioCache
     (put_all capacity5 (entries_of [js "A"; js "B"; js "C"; js "D"; js "E"]) initial))
   <= MAX_CACHE_SIZE capacity5)%nat /\
  (JsMap.size (cache_after_put capacity5 (js "F") (record_of (js "F"))
     (put_all capacity5 (entries_of [js "A"; js "B"; js "C"; js "D"; js "E"]) initial))
   <= MAX_CACHE_SIZE capacity5)%nat.
Proof.
  assert (H1 : (5 <= MAX_CACHE_SIZE capacity5)%nat) by (vm_compute; lia).
  assert (H2 : (JsMap.size (audioCache
     (put_all capacity5 (entries_of [js "A"; js "B"; js "C"; js "D"; js "E"]) initial))
   <= MAX_CACHE_SIZE capacity5)%nat) by (vm_compute; lia).
  split; [exact H1 | split; [exact H2 |]].
  exact (proj1 (proj2 (proj2 (proj2 (proj2
    (put_evicts_oldest_fifth capacity5 (js "F") (record_of (js "F"))
       (put_all capacity5 (entries_of [js "A"; js "B"; js "C"; js "D"; js "E"]) initial)
       H1 H2)))))).
Defined.

(** C2.  The event loop runs the callbacks of [setImmediate] before it
    comes back to its timers, so that the callback of [setInterval] meets
    the states the service reaches in which no pass is queued.  There
    every job of the registry is completed or failed, and the sweep, which
    tests the age alone, removes exactly the jobs that are terminal and
    older than 300000 ms, keeps the others in their order, and removes no
    job that is still processing. *)
Theorem sweep_removes_expired_jobs (cfg : config)
    (md5_hex : jsstring -> result jsstring)
    (URLSearchParams_toString : list (jsstring * jsstring) -> result jsstring)
    (toISOString : Z -> jsstring) (es : list event) (now : Z) :
  immediates (run cfg md5_hex URLSearchParams_toString toISOString es) = [] ->
  swept now (run cfg md5_hex URLSearchParams_toString toISOString es)
  = filter
      (fun e =>
         negb (expired now
                 (heap (run cfg md5_hex URLSearchParams_toString toISOString es)
                       (snd e))))
      (preloadQueue (run cfg md5_hex URLSearchParams_toString toISOString es))
  /\
  forall id r,
    JsMap.get id
      (preloadQueue (run cfg md5_hex URLSearchParams_toString toISOString es))
    = Some r ->
    (JsMap.has id
       (swept now (run cfg md5_hex URLSearchParams_toString toISOString es))
     = false
     <-> terminal
           (PreloadData.status
              (heap (run cfg md5_hex URLSearchParams_toString toISOString es) r))
         = true
         /\ 300000
            < age now
                (heap (run cfg md5_hex URLSearchParams_toString toISOString es) r))
    /\
    (PreloadData.status
       (heap (run cfg md5_hex URLSearchParams_toString toISOString es) r)
     = processing ->
     JsMap.has id
       (swept now (run cfg md5_hex URLSearchParams_toString toISOString es))
     = true).
Proof.
  intros Hdrained.
  pose proof (run_registry_wf cfg md5_hex URLSearchParams_toString toISOString
                es) as Hwf.
  pose proof (drained_registry_terminal cfg md5_hex URLSearchParams_toString
                toISOString es) as Hterminal.
  set (s := run cfg md5_hex URLSearchParams_toString toISOString es) in *.
  rewrite swept_filter by exact Hwf. split.
  - apply filter_ext_in. intros [id r] Hin. unfold sweep_keeps, expired.
    cbn [snd]. rewrite (Hterminal id r Hdrained Hin). reflexivity.
  - intros id r Hget.
    rewrite (@has_filter _ (sweep_keeps now s) _ _ _ Hwf Hget).
    pose proof (Hterminal id r Hdrained (get_In _ _ _ Hget)) as Ht.
    unfold sweep_keeps. cbn [snd]. split.
    + rewrite negb_false_iff, Z.ltb_lt. tauto.
    + intros Hp. rewrite Hp in Ht. discriminate.
Qed.

Lemma sweep_removes_expired_jobs_witness :
  immediates (run AUDIO_CONFIG digest_stub params_stub date_stub finished_events)
  = [] /\
  preloadQueue (run AUDIO_CONFIG digest_stub params_stub date_stub finished_events)
  = [(js "job-1", 0%nat)] /\
  swept 400000
    (run AUDIO_CONFIG digest_stub params_stub date_stub finished_events)
  = [] /\
  swept 300000
    (run AUDIO_CONFIG digest_stub params_stub date_stub finished_events)
  = [(js "job-1", 0%nat)].
Proof.
  assert (H : immediates (run AUDIO_CONFIG digest_stub params_stub date_stub
                            finished_events) = []) by reflexivity.
  split; [exact H|]. split; [reflexivity|]. split.
  - rewrite (proj1 (sweep_removes_expired_jobs AUDIO_CONFIG digest_stub
                      params_stub date_stub finished_events 400000 H)).
    reflexivity.
  - rewrite (proj1 (sweep_removes_expired_jobs AUDIO_CONFIG digest_stub
                      params_stub date_stub finished_events 300000 H)).
    reflexivity.
Defined.

(** C3, as the code has it.  The status query answers 404 exactly when the
    id is not in the registry.  A job that is in the registry is answered
    with status 200 and its state, whatever its age; when it is terminal
    and older than 300000 ms the same query deletes it, so that it is the
    next query that answers 404. *)
Theorem get_preload_reports_then_deletes (preloadId : jsstring)
    (startTime now ageNow : Z) (s : state) :
  exists resp s',
    get_preload preloadId startTime now ageNow s = (Ok resp, s') /\
    (status_code resp = 404 <-> JsMap.has preloadId (preloadQueue s) = false) /\
    (JsMap.get preloadId (preloadQueue s) = None -> s' = s) /\
    (forall r, JsMap.get preloadId (preloadQueue s) = Some r ->
       resp = json 200 (status_body preloadId (heap s r) (now - startTime)) /\
       preloadQueue s'
       = (if terminal (PreloadData.status (heap s r))
             && (300000 <? age ageNow (heap s r))
          then JsMap.delete preloadId (preloadQueue s)
          else preloadQueue s) /\
       (JsMap.wf (preloadQueue s) ->
        terminal (PreloadData.status (heap s r)) = true ->
        300000 < age ageNow (heap s r) ->
        forall t0 t1 t2,
          fst (get_preload preloadId t0 t1 t2 s')
          = Ok (json 404
                  [(js "error", VStr (js "Preload request not found"));
                   (js "preloadId", VStr preloadId)]))).
Proof.
  rewrite get_preload_spec. unfold JsMap.has.
  destruct (JsMap.get preloadId (preloadQueue s)) as [r|] eqn:G.
  - eexists _, _. split; [reflexivity|]. repeat split; try discriminate.
    + inversion H; subst. reflexivity.
    + inversion H; subst r0.
      destruct (terminal _ && _); reflexivity.
    + intros Hwf Ht Hage t0 t1 t2. inversion H; subst r0.
      rewrite Ht. apply Z.ltb_lt in Hage. rewrite Hage. cbn [andb].
      rewrite get_preload_spec. cbn [with_preloadQueue preloadQueue].
      pose proof (has_delete_same _ preloadId Hwf) as Hd.
      unfold JsMap.has in Hd.
      destruct (JsMap.get preloadId (JsMap.delete preloadId (preloadQueue s)));
        [discriminate | reflexivity].
  - eexists _, _. split; [reflexivity|]. repeat split; discriminate.
Qed.

(** C3 as stated fails: a completed job created at clock 0 is queried at
    clock 400000, past the retention window.  The answer is the normal
    state response, with status 200; the job is deleted by that query and
    only the following query answers 404. *)
Lemma expired_job_is_reported :
  terminal (PreloadData.status (job_of completed 0 (Some 10))) = true /\
  300000 < age 400000 (job_of completed 0 (Some 10)) /\
  fst (get_preload (js "job-1") 400000 400000 400000
         (registry_of (job_of completed 0 (Some 10))))
  = Ok (json 200 (status_body (js "job-1") (job_of completed 0 (Some 10)) 0)) /\
  prop (js "status")
       (status_body (js "job-1") (job_of completed 0 (Some 10)) 0)
  = Some (VStr (js "completed")) /\
  status_code (json 200 (status_body (js "job-1") (job_of completed 0 (Some 10)) 0))
  <> 404.
Proof. repeat split; discriminate. Qed.

(** C4.  An accepted batch creates one job, in state processing and with
    no results, and queues its pass.  The pass never throws.  When its
    loop returns, the job is completed and its results are what the loop
    returned: one entry per text of the request, in the order of the
    request.  When the loop throws, the job is failed, the message is
    stored on it and its results are still empty, whatever the loop had
    computed.  The status response reports these results. *)
Theorem preload_job_outcome (cfg : config)
    (md5_hex : jsstring -> result jsstring)
    (URLSearchParams_toString : list (jsstring * jsstring) -> result jsstring)
    (toISOString : Z -> jsstring)
    (req_body : list (jsstring * value)) (preloadId : jsstring)
    (startTime jobStart date0 now0 : Z) (s s1 : state) (resp : response) :
  post_preload cfg toISOString req_body preloadId startTime jobStart date0 now0 s
  = (Ok resp, s1) ->
  status_code resp = 200 ->
  exists texts language,
    field "texts" req_body = VArr texts /\
    immediates s1
    = immediates s ++ [mkImmediate texts language (allocated s)] /\
    JsMap.get preloadId (preloadQueue s1) = Some (allocated s) /\
    heap s1 (allocated s)
    = PreloadData.mk preloadId texts language processing [] jobStart
        (toISOString date0) None None None /\
    forall date now s2,
      heap s2 (allocated s) = heap s1 (allocated s) ->
      exists s3,
        resolution_pass cfg md5_hex URLSearchParams_toString toISOString
          (mkImmediate texts language (allocated s)) date now s2
        = (Ok tt, s3) /\
        (forall responseTime,
           prop (js "results")
             (status_body preloadId (heap s3 (allocated s)) responseTime)
           = Some (VArr (map ResultEntry.to_value
                           (PreloadData.results (heap s3 (allocated s)))))) /\
        match fst (resolve_texts cfg md5_hex URLSearchParams_toString
                     toISOString texts language date 0 [] s2) with
        | Ok rs =>
            PreloadData.status (heap s3 (allocated s)) = completed /\
            PreloadData.results (heap s3 (allocated s)) = rs /\
            map ResultEntry.text rs = texts /\
            length (PreloadData.results (heap s3 (allocated s))) = length texts /\
            PreloadData.processingDuration (heap s3 (allocated s))
            = Some (now - jobStart)
        | Throw message =>
            PreloadData.status (heap s3 (allocated s)) = failed /\
            PreloadData.results (heap s3 (allocated s)) = [] /\
            PreloadData.error (heap s3 (allocated s)) = Some message
        end.
Proof.
  intros Hpost Hcode.
  destruct (invalid_batch cfg req_body) eqn:Hi.
  - destruct (post_preload_rejects cfg toISOString req_body preloadId
                startTime jobStart date0 now0 s Hi) as (code & props & E & Hc).
    rewrite E in Hpost. inversion Hpost; subst.
    cbn [status_code json] in Hcode. lia.
  - destruct (post_preload_accepts cfg toISOString req_body preloadId
                startTime jobStart date0 now0 s Hi) as (texts & props & Ht & E).
    rewrite E in Hpost. inversion Hpost; subst. clear Hpost Hcode.
    exists texts, (field_default "language" (DEFAULT_LANGUAGE cfg) req_body).
    split; [exact Ht|]. split; [reflexivity|]. split.
    { unfold accepted, recordMetrics, modify.
      cbn [snd with_requestMetrics with_immediates with_preloadQueue
           preloadQueue heap_alloc].
      apply get_set_same. }
    assert (Hjob : heap (accepted toISOString texts
                           (field_default "language" (DEFAULT_LANGUAGE cfg) req_body)
                           preloadId startTime jobStart date0 now0 s)
                     (allocated s)
                   = PreloadData.mk preloadId texts
                       (field_default "language" (DEFAULT_LANGUAGE cfg) req_body)
                       processing [] jobStart (toISOString date0) None None None).
    { unfold accepted, recordMetrics, modify.
      cbn [snd with_requestMetrics with_immediates with_preloadQueue
           heap heap_alloc].
      now rewrite Nat.eqb_refl. }
    split; [exact Hjob|].
    intros date now s2 Hsame. rewrite Hjob in Hsame.
    rewrite resolution_pass_spec. cbn [imm_texts imm_language imm_preloadData].
    destruct (resolve_texts_spec cfg md5_hex URLSearchParams_toString
                toISOString
                (field_default "language" (DEFAULT_LANGUAGE cfg) req_body)
                date texts 0%nat [] s2) as [Hframe Htexts].
    destruct (resolve_texts _ _ _ _ texts _ _ _ _ s2) as [[rs|message] s2'];
      cbn [fst snd] in *; apply only_cache_heap in Hframe;
      eexists; (split; [reflexivity|]); rewrite heap_update_same, Hframe, Hsame;
      (split; [reflexivity|]); cbn.
    + repeat split; try exact Htexts.
      rewrite <- (length_map ResultEntry.text), Htexts. reflexivity.
    + repeat split.
Qed.

Lemma preload_job_outcome_witness :
  post_preload AUDIO_CONFIG date_stub one_text_body (js "job-1") 0 1 1 2 initial
  = (Ok example_response, snd accepted_example) /\
  status_code example_response = 200 /\
  exists texts language,
    field "texts" one_text_body = VArr texts /\
    immediates (snd accepted_example)
    = immediates initial ++ [mkImmediate texts language (allocated initial)].
Proof.
  assert (H1 : post_preload AUDIO_CONFIG date_stub one_text_body (js "job-1")
                 0 1 1 2 initial
               = (Ok example_response, snd accepted_example)) by reflexivity.
  assert (H2 : status_code example_response = 200) by reflexivity.
  split; [exact H1 | split; [exact H2|]].
  destruct (preload_job_outcome AUDIO_CONFIG digest_stub params_stub date_stub
              one_text_body (js "job-1") 0 1 1 2 initial (snd accepted_example)
              example_response H1 H2)
    as (texts & language & Ht & Him & _).
  exists texts, language. split; assumption.
Defined.

(** C5, at the failing input.  The body [{texts: [{toString: 1}]}] holds
    a text that is not valid.  [POST /preload] builds the message of its
    400 answer with a template literal on the text, which throws on this
    one, and the [catch] of the handler answers 500; [POST /audio], whose
    message is fixed, answers 400 for the same text.  Both leave the state
    as it was.  In general a text is valid exactly when it is a non-empty
    string of at most 100 UTF-16 code units (what [length] counts) one of
    which lies in U+4E00..U+9FFF or U+3400..U+4DBF.  [POST /audio]
    answers 400 exactly when the text is not valid or the language is not
    supported.  [POST /preload] answers 200 exactly when [texts] is an
    array of 1 to 10 valid texts and the language is supported; every
    other request leaves the whole state, cache and job registry
    included, as it was, with no job made and no pass queued, and is
    answered 400, or 500 when the first text that is not valid cannot be
    rendered. *)
Theorem unrenderable_text_answered_500 :
  isValidChineseText unrenderable = false /\
  post_preload AUDIO_CONFIG date_stub unrenderable_batch (js "job-1") 0 1 1 2
    initial
  = (Ok (json 500
           [(js "error", VStr (js "Internal server error while initiating preload"));
            (js "responseTime", ms 2)]),
     initial) /\
  post_audio AUDIO_CONFIG digest_stub params_stub date_stub unrenderable_body
    0 2 1 initial
  = (Ok (json 400
           [(js "error", VStr (js "Invalid Chinese text provided"));
            (js "details", VStr (js "Text must contain Chinese characters and be less than 100 characters"))]),
     initial) /\
  (forall text,
     isValidChineseText text = true
     <-> exists s, text = VStr s /\ s <> [] /\ (length s <= 100)%nat /\
           exists c, In c s /\
             ((0x4e00 <= c <= 0x9fff) \/ (0x3400 <= c <= 0x4dbf))) /\
  (forall cfg md5_hex URLSearchParams_toString toISOString
          req_body startTime now date s,
     exists resp s',
       post_audio cfg md5_hex URLSearchParams_toString toISOString
         req_body startTime now date s = (Ok resp, s') /\
       (status_code resp = 400
        <-> isValidChineseText (field "text" req_body)
            && includes (SUPPORTED_LANGUAGES cfg)
                 (field_default "language" (DEFAULT_LANGUAGE cfg) req_body)
            = false) /\
       (isValidChineseText (field "text" req_body) = false ->
        prop (js "error") (props_of resp)
        = Some (VStr (js "Invalid Chinese text provided"))) /\
       (status_code resp = 400 -> s' = s)) /\
  (forall cfg toISOString req_body preloadId startTime jobStart date now s,
     exists resp s',
       post_preload cfg toISOString req_body preloadId startTime jobStart
         date now s = (Ok resp, s') /\
       (status_code resp = 200 <-> invalid_batch cfg req_body = false) /\
       (status_code resp <> 200 ->
        s' = s /\ (status_code resp = 400 \/ status_code resp = 500)) /\
       (status_code resp = 500
        <-> exists texts text message,
              field "texts" req_body = VArr texts /\
              (1 <= length texts <= 10)%nat /\
              find (fun text => negb (isValidChineseText text)) texts
              = Some text /\
              ToString text = Throw message)).
Proof.
  split; [reflexivity|]. split; [reflexivity|]. split; [reflexivity|].
  split; [exact isValidChineseText_spec|]. split.
  - intros cfg md5_hex URLSearchParams_toString toISOString
           req_body startTime now date s.
    destruct (post_audio_spec cfg md5_hex URLSearchParams_toString toISOString
                req_body startTime now date s) as (props & s' & E).
    destruct (isValidChineseText (field "text" req_body)) eqn:Hv.
    + destruct (includes _ _) eqn:Hl; cbn [andb] in *.
      * eexists _, _. split; [exact E|]. cbn [status_code json body].
        assert (Hs : forall p : Z, (p = 200 \/ p = 500) -> p = 400 -> False)
          by (intros p [-> | ->]; discriminate).
        repeat split; try discriminate; intros H; exfalso;
          (eapply Hs; [|exact H]);
          destruct (generateCacheKey _ _ _); auto;
          destruct (JsMap.has _ _); auto;
          destruct (generateAudioUrl _ _ _ _); auto.
      * eexists _, _. split; [exact E|]. cbn [status_code json].
        repeat split; try discriminate; reflexivity.
    + cbn [andb] in E. eexists _, _. split; [exact E|].
      cbn [status_code json body props_of]. repeat split.
      intros _. revert E. unfold post_audio, try_catch. rewrite Hv.
      cbn [negb]. unfold ret. intros E. inversion E. reflexivity.
  - intros cfg toISOString req_body preloadId startTime jobStart date now s.
    unfold invalid_batch, post_preload, try_catch.
    destruct (field "texts" req_body) as [| |b|n|t|elems|o];
      try (eexists _, _; split; [reflexivity|]; cbn [status_code json];
           split; [split; discriminate|];
           split; [intros _; split; [reflexivity | now left]|];
           split; [discriminate | intros (? & ? & ? & ? & _); discriminate]).
    destruct (length elems =? 0)%nat eqn:H0.
    { apply Nat.eqb_eq in H0.
      eexists _, _; split; [reflexivity|]; cbn [status_code json orb].
      split; [split; discriminate|].
      split; [intros _; split; [reflexivity | now left]|].
      split; [discriminate|].
      intros (texts & text & message & Ht & Hlen & _).
      inversion Ht; subst. lia. }
    destruct (10 <? length elems)%nat eqn:H10.
    { apply Nat.ltb_lt in H10.
      eexists _, _; split; [reflexivity|]; cbn [status_code json orb].
      split; [split; discriminate|].
      split; [intros _; split; [reflexivity | now left]|].
      split; [discriminate|].
      intros (texts & text & message & Ht & Hlen & _).
      inversion Ht; subst. lia. }
    apply Nat.eqb_neq in H0. apply Nat.ltb_ge in H10. cbn [orb].
    destruct (find _ elems) as [bad|] eqn:F.
    + assert (Hall : forallb isValidChineseText elems = false).
      { destruct (forallb isValidChineseText elems) eqn:Hall; [|reflexivity].
        apply find_invalid in Hall. congruence. }
      rewrite Hall. cbn [negb orb]. unfold bind, lift, ret.
      destruct (ToString bad) as [rendered|message] eqn:Hr;
        (eexists _, _; split; [reflexivity|]; cbn [status_code json];
         split; [split; discriminate|]; split; [intros _; split; auto|]).
      * split; [discriminate|].
        intros (texts & text & message & Ht & _ & Hf & Hthrow).
        inversion Ht; subst. congruence.
      * split; [|reflexivity]. intros _. exists elems, bad, message.
        repeat split; try assumption; lia.
    + pose proof F as Hall. apply find_invalid in Hall. rewrite Hall.
      cbn [negb orb].
      destruct (includes _ _); cbn [negb].
      * eexists _, _; split; [reflexivity|]; cbn [status_code json].
        split; [split; reflexivity|]. split; [intros H; now contradiction H|].
        split; [discriminate|].
        intros (texts & text & message & Ht & _ & Hf & _).
        inversion Ht; subst. congruence.
      * eexists _, _; split; [reflexivity|]; cbn [status_code json].
        split; [split; discriminate|].
        split; [intros _; split; [reflexivity | now left]|].
        split; [discriminate|].
        intros (texts & text & message & Ht & _ & Hf & _).
        inversion Ht; subst. congruence.
Qed.

(** C6, at the failing input.  The pass of an accepted job runs where
    the digest is not available and throws.  The job is failed and the
    message is stored in its [error] property; the status query answers
    with an object that has no [error] property, and the object is the
    same whatever the message is: the caller learns that the job failed,
    not why. *)
Theorem failed_job_error_not_reported :
  PreloadData.status (heap failed_example 0%nat) = failed /\
  PreloadData.error (heap failed_example 0%nat)
  = Some (js "Digest method not supported") /\
  fst (get_preload (js "job-1") 5 6 7 failed_example)
  = Ok (json 200 (status_body (js "job-1") (heap failed_example 0%nat) 1)) /\
  (forall preloadId d responseTime,
     prop (js "error") (status_body preloadId d responseTime) = None) /\
  (forall preloadId d responseTime message message',
     status_body preloadId (PreloadData.fail message d) responseTime
     = status_body preloadId (PreloadData.fail message' d) responseTime).
Proof. repeat split. Qed.



(** C9.  On every request and from every state the two variants of
    [POST /audio] leave the same state and give responses that agree in
    everything but the [audioUrl] property: same status, same errors,
    same [text], [language] and [cached].  In a response of status 200 the
    first variant gives [/play/] followed by the cache key, and the second
    gives the locator of the record the cache now holds under that key; on
    a miss that is the locator just generated for the request, and on a
    hit it is the external locator of the stored record as long as the
    cache holds external locators only. *)
Theorem audio_variants_differ_in_reference (cfg : config)
    (md5_hex : jsstring -> result jsstring)
    (URLSearchParams_toString : list (jsstring * jsstring) -> result jsstring)
    (toISOString : Z -> jsstring)
    (req_body : list (jsstring * value)) (startTime now date : Z) (s : state) :
  exists indirect direct s',
    post_audio cfg md5_hex URLSearchParams_toString toISOString
      req_body startTime now date s = (Ok indirect, s') /\
    post_audio_direct cfg md5_hex URLSearchParams_toString toISOString
      req_body startTime now date s = (Ok direct, s') /\
    without_audioUrl indirect = without_audioUrl direct /\
    (status_code indirect <> 200 -> indirect = direct) /\
    (status_code indirect = 200 ->
     exists cacheKey cachedData,
       generateCacheKey md5_hex (field "text" req_body)
         (field_default "language" (DEFAULT_LANGUAGE cfg) req_body)
       = Ok cacheKey /\
       JsMap.get cacheKey (audioCache s') = Some cachedData /\
       prop (js "audioUrl") (props_of indirect)
       = Some (VStr (js "/play/" ++ cacheKey)) /\
       prop (js "audioUrl") (props_of direct)
       = Some (VStr (CacheRecord.audioUrl cachedData)) /\
       prop (js "cached") (props_of indirect)
       = Some (VBool (JsMap.has cacheKey (audioCache s))) /\
       (JsMap.has cacheKey (audioCache s) = false ->
        generateAudioUrl cfg URLSearchParams_toString (field "text" req_body)
          (field_default "language" (DEFAULT_LANGUAGE cfg) req_body)
        = Ok (CacheRecord.audioUrl cachedData)) /\
       (locators_external cfg URLSearchParams_toString (audioCache s) ->
        JsMap.has cacheKey (audioCache s) = true ->
        generateAudioUrl cfg URLSearchParams_toString
          (CacheRecord.text cachedData) (CacheRecord.language cachedData)
        = Ok (CacheRecord.audioUrl cachedData))).
Proof.
  unfold post_audio, post_audio_direct, try_catch, bind, lift, gets, ret,
    throw, recordMetrics, modify.
  destruct (isValidChineseText (field "text" req_body)); cbn [negb];
    [|eexists _, _, _; repeat split; discriminate].
  destruct (includes _ _); cbn [negb]; cbv beta iota;
    [|eexists _, _, _; repeat split; discriminate].
  destruct (generateCacheKey _ _ _) as [cacheKey|e]; cbv beta iota;
    [|eexists _, _, _; repeat split; discriminate].
  destruct (JsMap.has cacheKey (audioCache s)) eqn:Hhit; cbv beta iota.
  - destruct (proj1 (has_get _ _) Hhit) as [cachedData Hget].
    rewrite Hget.
    eexists _, _, _. split; [reflexivity|]. split; [reflexivity|].
    split; [reflexivity|]. split; [intros H; now contradiction H|].
    intros _. exists cacheKey, cachedData.
    repeat split; try reflexivity; try exact Hget.
    + now rewrite Hhit.
    + rewrite Hhit. discriminate.
    + intros Hext _. exact (Hext _ _ (get_In _ _ _ Hget)).
  - destruct (generateAudioUrl _ _ _ _) as [audioUrl|e]; cbv beta iota;
      [|eexists _, _, _; repeat split; discriminate].
    rewrite cache_put_spec. cbv beta iota.
    eexists _, _, _. split; [reflexivity|]. split; [reflexivity|].
    split; [reflexivity|]. split; [intros H; now contradiction H|].
    intros _. exists cacheKey. eexists.
    split; [reflexivity|]. split.
    { cbn [with_requestMetrics with_audioCache audioCache].
      apply get_set_same. }
    repeat split; try reflexivity.
    + now rewrite Hhit.
    + rewrite Hhit. discriminate.
Qed.

(** C10.  Both deletion paths compare the clock with the job's
    [startTime], and neither reads [completedTime]: the sweep deletes a
    job exactly when [now - startTime] exceeds 300000, the status query
    exactly when the job is terminal and [now - startTime] exceeds 300000.
    Hence a job whose pass took [T] ms is deleted by either path once more
    than [300000 - T] ms have passed since it completed. *)
Theorem deletion_age_from_startTime (s : state) (preloadId : jsstring)
    (r : ref) (now t0 t1 : Z) :
  JsMap.wf (preloadQueue s) ->
  JsMap.get preloadId (preloadQueue s) = Some r ->
  (JsMap.has preloadId (swept now s) = false
   <-> 300000 < now - PreloadData.startTime (heap s r)) /\
  (JsMap.has preloadId (preloadQueue (snd (get_preload preloadId t0 t1 now s)))
   = false
   <-> terminal (PreloadData.status (heap s r)) = true
       /\ 300000 < now - PreloadData.startTime (heap s r)) /\
  (forall completedTime T,
     PreloadData.completedTime (heap s r) = Some completedTime ->
     terminal (PreloadData.status (heap s r)) = true ->
     T = completedTime - PreloadData.startTime (heap s r) ->
     300000 - T < now - completedTime ->
     JsMap.has preloadId (swept now s) = false /\
     JsMap.has preloadId
       (preloadQueue (snd (get_preload preloadId t0 t1 now s))) = false).
Proof.
  intros Hwf Hget.
  assert (Hsweep : JsMap.has preloadId (swept now s) = false
                   <-> 300000 < now - PreloadData.startTime (heap s r)).
  { rewrite swept_filter by exact Hwf.
    rewrite (@has_filter _ (sweep_keeps now s) _ _ _ Hwf Hget). unfold sweep_keeps, age. cbn [snd].
    rewrite negb_false_iff. apply Z.ltb_lt. }
  assert (Hlazy : JsMap.has preloadId
                    (preloadQueue (snd (get_preload preloadId t0 t1 now s)))
                  = false
                  <-> terminal (PreloadData.status (heap s r)) = true
                      /\ 300000 < now - PreloadData.startTime (heap s r)).
  { rewrite get_preload_spec, Hget. cbn [snd]. unfold age.
    assert (Hin : JsMap.has preloadId (preloadQueue s) = true)
      by (apply has_get; eauto).
    destruct (terminal (PreloadData.status (heap s r))); cbn [andb].
    - destruct (300000 <? now - PreloadData.startTime (heap s r)) eqn:E.
      + cbn [with_preloadQueue preloadQueue]. apply Z.ltb_lt in E.
        split; [tauto|]. intros _. now apply has_delete_same.
      + apply Z.ltb_ge in E. rewrite Hin. split; [discriminate | lia].
    - rewrite Hin. split; [discriminate | intros [? _]; discriminate]. }
  split; [exact Hsweep | split; [exact Hlazy|]].
  intros c T Hc Ht HT Hlate. split.
  - apply Hsweep. lia.
  - apply Hlazy. split; [exact Ht | lia].
Qed.

Lemma deletion_age_from_startTime_witness :
  JsMap.wf (preloadQueue (registry_of (job_of completed 0 (Some 200000)))) /\
  JsMap.get (js "job-1")
    (preloadQueue (registry_of (job_of completed 0 (Some 200000))))
  = Some 0%nat /\
  300000 - 200000 < 300001 - 200000 /\
  JsMap.has (js "job-1")
    (swept 300001 (registry_of (job_of completed 0 (Some 200000)))) = false.
Proof.
  assert (Hwf : JsMap.wf
            (preloadQueue (registry_of (job_of completed 0 (Some 200000)))))
    by (repeat constructor; intros []).
  split; [exact Hwf | split; [reflexivity | split; [reflexivity|]]].
  exact (proj1 (proj2 (proj2
    (deletion_age_from_startTime
       (registry_of (job_of completed 0 (Some 200000))) (js "job-1") 0%nat
       300001 0 0 Hwf eq_refl))
    200000 200000 eq_refl eq_refl eq_refl eq_refl)).
Defined.

(** ** Further properties of the service *)

(** X1.  [recordMetrics] keeps, for the endpoint it is called with, the
    last 100 of the samples recorded so far: the new sample is appended
    and the oldest one is dropped once there are more than 100.  The
    samples of the other endpoints, the cache and the registry are left
    as they were. *)
Theorem metrics_keep_last_hundred (endpoint : jsstring) (responseTime : Z)
    (s : state) :
  (length (samples endpoint s) <= 100)%nat ->
  samples endpoint (snd (recordMetrics endpoint responseTime s))
  = skipn (length (samples endpoint s ++ [responseTime]) - 100)
          (samples endpoint s ++ [responseTime]) /\
  (length (samples endpoint (snd (recordMetrics endpoint responseTime s)))
   <= 100)%nat /\
  last (samples endpoint (snd (recordMetrics endpoint responseTime s))) 0
  = responseTime /\
  (forall other, other <> endpoint ->
     samples other (snd (recordMetrics endpoint responseTime s))
     = samples other s) /\
  audioCache (snd (recordMetrics endpoint responseTime s)) = audioCache s /\
  preloadQueue (snd (recordMetrics endpoint responseTime s)) = preloadQueue s.
Proof.
  intros Hlen. rewrite samples_recordMetrics.
  split; [|split; [|split; [|split; [|split; reflexivity]]]].
  - destruct (100 <? length (samples endpoint s ++ [responseTime]))%nat eqn:E.
    + apply Nat.ltb_lt in E. rewrite length_app in *. cbn [length] in *.
      replace (length (samples endpoint s) + 1 - 100)%nat with 1%nat by lia.
      destruct (samples endpoint s); reflexivity.
    + apply Nat.ltb_ge in E.
      replace (length (samples endpoint s ++ [responseTime]) - 100)%nat
        with 0%nat by lia.
      reflexivity.
  - apply window_length. exact Hlen.
  - apply last_window.
  - intros other Hne. unfold samples at 1. rewrite recordMetrics_get.
    apply jsstring_eqb_neq in Hne. now rewrite Hne.
Qed.

Lemma metrics_keep_last_hundred_witness :
  (length (samples (js "/audio") initial) <= 100)%nat /\
  samples (js "/audio") (snd (recordMetrics (js "/audio") 7 initial)) = [7].
Proof.
  assert (H : (length (samples (js "/audio") initial) <= 100)%nat)
    by (cbn; lia).
  split; [exact H|].
  exact (proj1 (metrics_keep_last_hundred (js "/audio") 7 initial H)).
Defined.

(** X2.  In every state the service reaches, the metrics hold samples for
    [/audio] and [/preload] only, and for each of them at least one and
    at most 100 samples. *)
Theorem reachable_metrics_bounded (cfg : config)
    (md5_hex : jsstring -> result jsstring)
    (URLSearchParams_toString : list (jsstring * jsstring) -> result jsstring)
    (toISOString : Z -> jsstring) (es : list event)
    (endpoint : jsstring) (times : list Z) :
  JsMap.get endpoint
    (requestMetrics (run cfg md5_hex URLSearchParams_toString toISOString es))
  = Some times ->
  (1 <= length times <= 100)%nat /\
  (endpoint = js "/audio" \/ endpoint = js "/preload").
Proof.
  apply (run_metrics cfg md5_hex URLSearchParams_toString toISOString es).
Qed.

Lemma reachable_metrics_bounded_witness :
  JsMap.get (js "/audio")
    (requestMetrics (run AUDIO_CONFIG digest_stub params_stub date_stub
                       [PostAudio greeting_body 0 3 2]))
  = Some [3] /\
  (1 <= length [3] <= 100)%nat.
Proof.
  split; [reflexivity|].
  exact (proj1 (reachable_metrics_bounded AUDIO_CONFIG digest_stub params_stub
                  date_stub [PostAudio greeting_body 0 3 2] (js "/audio") [3]
                  eq_refl)).
Defined.

(** X3.  [GET /health] leaves the state as it was and answers 200 with
    the size of the cache and its capacity; for an endpoint that has
    samples, the average it reports is the rounded mean of the samples
    and lies between any two bounds of the samples. *)
Theorem health_reports_mean_of_samples (cfg : config)
    (toISOString : Z -> jsstring) (uptime startTime now date : Z) (s : state)
    (endpoint : jsstring) (times : list Z) (lo hi : Z) :
  JsMap.get endpoint (requestMetrics s) = Some times ->
  times <> [] ->
  (forall x, In x times -> lo <= x <= hi) ->
  exists resp averages,
    get_health cfg toISOString uptime startTime now date s = (Ok resp, s) /\
    status_code resp = 200 /\
    prop (js "cache") (props_of resp)
    = Some (VObj [(js "size", VNum (Z.of_nat (JsMap.size (audioCache s))));
                  (js "maxSize", VNum (Z.of_nat (MAX_CACHE_SIZE cfg)))]) /\
    prop (js "averageResponseTimes") (props_of resp) = Some (VObj averages) /\
    prop endpoint averages = Some (VNum (average times)) /\
    lo <= average times <= hi.
Proof.
  intros G Hne Hb.
  exists (json 200
    [(js "status", VStr (js "healthy"));
     (js "service", VStr (js "Pronunciation Audio Service"));
     (js "uptime", VNum uptime);
     (js "timestamp", VStr (toISOString date));
     (js "cache",
      VObj [(js "size", VNum (Z.of_nat (JsMap.size (audioCache s))));
            (js "maxSize", VNum (Z.of_nat (MAX_CACHE_SIZE cfg)))]);
     (js "averageResponseTimes", VObj (avgResponseTimes (requestMetrics s)));
     (js "responseTime", ms (now - startTime))]).
  exists (avgResponseTimes (requestMetrics s)).
  split; [reflexivity|]. split; [reflexivity|]. split; [reflexivity|].
  split; [reflexivity|]. split.
  - now apply avgResponseTimes_prop.
  - now apply average_bounds.
Qed.

Lemma health_reports_mean_of_samples_witness :
  JsMap.get (js "/audio") (requestMetrics (snd greeting_answer)) = Some [3] /\
  3 <= average [3] <= 3.
Proof.
  assert (H1 : JsMap.get (js "/audio") (requestMetrics (snd greeting_answer))
               = Some [3]) by reflexivity.
  assert (H2 : [3] <> []) by discriminate.
  assert (H3 : forall x, In x [3] -> 3 <= x <= 3)
    by (intros x [<-|[]]; lia).
  split; [exact H1|].
  destruct (health_reports_mean_of_samples AUDIO_CONFIG date_stub 10 0 1 1
              (snd greeting_answer) (js "/audio") [3] 3 3 H1 H2 H3)
    as (resp & averages & _ & _ & _ & _ & _ & Hb).
  exact Hb.
Defined.

Lemma has_set_same {V} (m : JsMap.t V) k v : JsMap.has k (JsMap.set k v m) = true.
Proof. unfold JsMap.has. now rewrite get_set_same. Qed.

(** X4.  Once [POST /audio] has answered 200 for a text and a language,
    the cache holds their key.  From every state whose cache holds the
    key, the state that answer left being one, a valid request whose
    text and language give the same key is answered 200 with
    [cached: true] and the same [/play/] reference, and leaves the cache
    as it is. *)
Theorem audio_repeat_is_cached (cfg : config)
    (md5_hex : jsstring -> result jsstring)
    (URLSearchParams_toString : list (jsstring * jsstring) -> result jsstring)
    (toISOString : Z -> jsstring)
    (first second : list (jsstring * value))
    (startTime now date startTime' now' date' : Z)
    (s s1 : state) (resp1 : response) (cacheKey : jsstring) :
  post_audio cfg md5_hex URLSearchParams_toString toISOString
    first startTime now date s = (Ok resp1, s1) ->
  status_code resp1 = 200 ->
  generateCacheKey md5_hex (field "text" first)
    (field_default "language" (DEFAULT_LANGUAGE cfg) first) = Ok cacheKey ->
  isValidChineseText (field "text" second) = true ->
  includes (SUPPORTED_LANGUAGES cfg)
    (field_default "language" (DEFAULT_LANGUAGE cfg) second) = true ->
  generateCacheKey md5_hex (field "text" second)
    (field_default "language" (DEFAULT_LANGUAGE cfg) second) = Ok cacheKey ->
  JsMap.has cacheKey (audioCache s1) = true /\
  prop (js "audioUrl") (props_of resp1)
  = Some (VStr (js "/play/" ++ cacheKey)) /\
  forall later,
    JsMap.has cacheKey (audioCache later) = true ->
    exists resp2 s2,
      post_audio cfg md5_hex URLSearchParams_toString toISOString
        second startTime' now' date' later = (Ok resp2, s2) /\
      status_code resp2 = 200 /\
      prop (js "cached") (props_of resp2) = Some (VBool true) /\
      prop (js "audioUrl") (props_of resp2)
      = Some (VStr (js "/play/" ++ cacheKey)) /\
      audioCache s2 = audioCache later.
Proof.
  intros H1 Hcode Hk1 Hv2 Hl2 Hk2.
  assert (Hin : JsMap.has cacheKey (audioCache s1) = true
                /\ prop (js "audioUrl") (props_of resp1)
                   = Some (VStr (js "/play/" ++ cacheKey))).
  { destruct (post_audio_cases cfg md5_hex URLSearchParams_toString first s)
      as [H|(k & Hv & Hl & Hk & [Hhit|[Hhit [audioUrl Hurl]]])].
    - destruct (post_audio_refused cfg md5_hex URLSearchParams_toString
                  toISOString first startTime now date s H)
        as (code & props & E & Hc).
      rewrite E in H1. inversion H1; subst. cbn in Hcode.
      destruct Hc; subst; discriminate.
    - rewrite Hk1 in Hk. inversion Hk; subst k.
      rewrite (post_audio_hit cfg md5_hex URLSearchParams_toString toISOString
                 first startTime now date s cacheKey Hv Hl Hk1 Hhit) in H1.
      inversion H1; subst. split; [exact Hhit | reflexivity].
    - rewrite Hk1 in Hk. inversion Hk; subst k.
      rewrite (post_audio_miss cfg md5_hex URLSearchParams_toString toISOString
                 first startTime now date s cacheKey audioUrl
                 Hv Hl Hk1 Hhit Hurl) in H1.
      inversion H1; subst. split; [|reflexivity].
      rewrite cache_put_spec. apply has_set_same. }
  destruct Hin as [Hin Hurl1].
  split; [exact Hin|]. split; [exact Hurl1|].
  intros later Hheld.
  rewrite (post_audio_hit cfg md5_hex URLSearchParams_toString toISOString
             second startTime' now' date' later cacheKey Hv2 Hl2 Hk2 Hheld).
  eexists _, _. split; [reflexivity|]. repeat split.
Qed.

Lemma audio_repeat_is_cached_witness :
  post_audio AUDIO_CONFIG digest_stub params_stub date_stub greeting_body
    0 3 2 initial = (Ok greeting_response, snd greeting_answer) /\
  status_code greeting_response = 200 /\
  exists resp2 s2,
    post_audio AUDIO_CONFIG digest_stub params_stub date_stub greeting_body
      10 11 12 (snd greeting_answer) = (Ok resp2, s2) /\
    prop (js "cached") (props_of resp2) = Some (VBool true).
Proof.
  assert (H1 : post_audio AUDIO_CONFIG digest_stub params_stub date_stub
                 greeting_body 0 3 2 initial
               = (Ok greeting_response, snd greeting_answer)) by reflexivity.
  assert (H2 : status_code greeting_response = 200) by reflexivity.
  split; [exact H1 | split; [exact H2|]].
  destruct (audio_repeat_is_cached AUDIO_CONFIG digest_stub params_stub
              date_stub greeting_body greeting_body 0 3 2 10 11 12
              initial (snd greeting_answer) greeting_response greeting_key
              H1 H2 eq_refl eq_refl eq_refl eq_refl)
    as (Hheld & _ & Hlater).
  destruct (Hlater (snd greeting_answer) Hheld)
    as (resp2 & s2 & E & _ & Hc & _).
  exists resp2, s2. split; assumption.
Defined.

(** X5.  [POST /audio] changes the state only when it answers 200: a
    request answered 400 or 500 leaves the cache, the metrics and the
    registry as they were, so that a failed resolution is never cached.
    A request answered 200 records its response time as the newest sample
    of [/audio] and touches neither the registry nor any job. *)
Theorem audio_changes_state_only_on_success (cfg : config)
    (md5_hex : jsstring -> result jsstring)
    (URLSearchParams_toString : list (jsstring * jsstring) -> result jsstring)
    (toISOString : Z -> jsstring)
    (req_body : list (jsstring * value)) (startTime now date : Z) (s : state) :
  exists resp s',
    post_audio cfg md5_hex URLSearchParams_toString toISOString
      req_body startTime now date s = (Ok resp, s') /\
    (status_code resp = 200 \/ status_code resp = 400 \/ status_code resp = 500) /\
    (status_code resp <> 200 -> s' = s) /\
    (status_code resp = 200 ->
     last (samples (js "/audio") s') 0 = now - startTime /\
     preloadQueue s' = preloadQueue s /\ same_jobs s s').
Proof.
  destruct (post_audio_cases cfg md5_hex URLSearchParams_toString req_body s)
    as [H|(k & Hv & Hl & Hk & [Hhit|[Hhit [audioUrl Hurl]]])].
  - destruct (post_audio_refused cfg md5_hex URLSearchParams_toString
                toISOString req_body startTime now date s H)
      as (code & props & E & Hc).
    rewrite E. eexists _, _. split; [reflexivity|]. cbn [status_code json].
    split; [tauto|]. split; [reflexivity|].
    intros ->. destruct Hc; discriminate.
  - rewrite (post_audio_hit cfg md5_hex URLSearchParams_toString toISOString
               req_body startTime now date s k Hv Hl Hk Hhit).
    eexists _, _. split; [reflexivity|]. cbn [status_code json].
    split; [tauto|]. split; [intros H; now contradiction H|]. intros _.
    rewrite samples_recordMetrics, last_window. repeat split.
  - rewrite (post_audio_miss cfg md5_hex URLSearchParams_toString toISOString
               req_body startTime now date s k audioUrl Hv Hl Hk Hhit Hurl).
    eexists _, _. split; [reflexivity|]. cbn [status_code json].
    split; [tauto|]. split; [intros H; now contradiction H|]. intros _.
    rewrite samples_recordMetrics, last_window.
    pose proof (cache_put_only_cache cfg k
                  (CacheRecord.mk audioUrl (field "text" req_body)
                     (field_default "language" (DEFAULT_LANGUAGE cfg) req_body)
                     (toISOString date)) s) as Hframe.
    split; [reflexivity|].
    destruct (recordMetrics_frame (js "/audio") (now - startTime)
                (snd (cache_put cfg k
                        (CacheRecord.mk audioUrl (field "text" req_body)
                           (field_default "language" (DEFAULT_LANGUAGE cfg)
                              req_body)
                           (toISOString date)) s)))
      as (_ & Hq & Hh & Hi & Ha).
    unfold same_jobs. rewrite Hq, Hh, Hi, Ha, Hframe. repeat split.
Qed.

(** X6.  The reference a 200 answer of [POST /audio] returns can be
    played at once: the cache holds a record under its key, and
    [GET /play] of that key requests the locator of that record, which
    after a miss is the locator generated for the request. *)
Theorem audio_reference_is_servable (cfg : config)
    (md5_hex : jsstring -> result jsstring)
    (URLSearchParams_toString : list (jsstring * jsstring) -> result jsstring)
    (toISOString : Z -> jsstring)
    (req_body : list (jsstring * value)) (startTime now date : Z)
    (s s1 : state) (resp : response) :
  post_audio cfg md5_hex URLSearchParams_toString toISOString
    req_body startTime now date s = (Ok resp, s1) ->
  status_code resp = 200 ->
  exists cacheKey cachedData,
    prop (js "audioUrl") (props_of resp)
    = Some (VStr (js "/play/" ++ cacheKey)) /\
    JsMap.get cacheKey (audioCache s1) = Some cachedData /\
    (forall up,
       get_play cacheKey up s1
       = (Ok ([https_get (CacheRecord.audioUrl cachedData); request_on_error;
               request_setTimeout 10000] ++ play_callback up), s1)) /\
    (JsMap.has cacheKey (audioCache s) = false ->
     generateAudioUrl cfg URLSearchParams_toString (field "text" req_body)
       (field_default "language" (DEFAULT_LANGUAGE cfg) req_body)
     = Ok (CacheRecord.audioUrl cachedData)).
Proof.
  intros H1 Hcode.
  destruct (post_audio_cases cfg md5_hex URLSearchParams_toString req_body s)
    as [H|(k & Hv & Hl & Hk & [Hhit|[Hhit [audioUrl Hurl]]])].
  - destruct (post_audio_refused cfg md5_hex URLSearchParams_toString
                toISOString req_body startTime now date s H)
      as (code & props & E & Hc).
    rewrite E in H1. inversion H1; subst. cbn in Hcode.
    destruct Hc; subst; discriminate.
  - rewrite (post_audio_hit cfg md5_hex URLSearchParams_toString toISOString
               req_body startTime now date s k Hv Hl Hk Hhit) in H1.
    inversion H1; subst. clear H1.
    destruct (proj1 (has_get _ _) Hhit) as [cachedData G].
    exists k, cachedData. split; [reflexivity|]. split; [exact G|]. split.
    + intros up. now apply get_play_present.
    + rewrite Hhit. discriminate.
  - rewrite (post_audio_miss cfg md5_hex URLSearchParams_toString toISOString
               req_body startTime now date s k audioUrl Hv Hl Hk Hhit Hurl)
      in H1.
    inversion H1; subst. clear H1.
    assert (G : JsMap.get k
                  (audioCache
                     (snd (recordMetrics (js "/audio") (now - startTime)
                        (snd (cache_put cfg k
                                (CacheRecord.mk audioUrl (field "text" req_body)
                                   (field_default "language"
                                      (DEFAULT_LANGUAGE cfg) req_body)
                                   (toISOString date)) s)))))
                = Some (CacheRecord.mk audioUrl (field "text" req_body)
                          (field_default "language" (DEFAULT_LANGUAGE cfg)
                             req_body)
                          (toISOString date))).
    { rewrite cache_put_spec. apply get_set_same. }
    eexists k, _. split; [reflexivity|]. split; [exact G|]. split.
    + intros up. now apply get_play_present.
    + intros _. exact Hurl.
Qed.

Lemma audio_reference_is_servable_witness :
  post_audio AUDIO_CONFIG digest_stub params_stub date_stub greeting_body
    0 3 2 initial = (Ok greeting_response, snd greeting_answer) /\
  status_code greeting_response = 200 /\
  exists cacheKey cachedData,
    prop (js "audioUrl") (props_of greeting_response)
    = Some (VStr (js "/play/" ++ cacheKey)) /\
    JsMap.get cacheKey (audioCache (snd greeting_answer)) = Some cachedData.
Proof.
  assert (H1 : post_audio AUDIO_CONFIG digest_stub params_stub date_stub
                 greeting_body 0 3 2 initial
               = (Ok greeting_response, snd greeting_answer)) by reflexivity.
  assert (H2 : status_code greeting_response = 200) by reflexivity.
  split; [exact H1 | split; [exact H2|]].
  destruct (audio_reference_is_servable AUDIO_CONFIG digest_stub params_stub
              date_stub greeting_body 0 3 2 initial (snd greeting_answer)
              greeting_response H1 H2)
    as (cacheKey & cachedData & Hu & G & _).
  exists cacheKey, cachedData. split; assumption.
Defined.

(** X7.  When the loop of the pass returns, its results are one entry per
    text, in order, and the entry of a text carries that text and the
    reference [/play/] followed by the cache key of the text. *)
Theorem pass_results_reference_keys (cfg : config)
    (md5_hex : jsstring -> result jsstring)
    (URLSearchParams_toString : list (jsstring * jsstring) -> result jsstring)
    (toISOString : Z -> jsstring)
    (texts : list value) (language : value) (date : nat -> Z) (s : state)
    (rs : list ResultEntry.t) :
  fst (resolve_texts cfg md5_hex URLSearchParams_toString toISOString
         texts language date 0 [] s) = Ok rs ->
  Forall2 (fun text e =>
             ResultEntry.text e = text /\
             exists cacheKey,
               generateCacheKey md5_hex text language = Ok cacheKey /\
               ResultEntry.audioUrl e = js "/play/" ++ cacheKey)
          texts rs.
Proof.
  intros H.
  destruct (resolve_texts_references cfg md5_hex URLSearchParams_toString
              toISOString language date texts 0%nat [] s rs H)
    as (added & -> & Hall).
  exact Hall.
Qed.

Lemma pass_results_reference_keys_witness :
  fst (resolve_texts AUDIO_CONFIG digest_stub params_stub date_stub
         [VStr [0x5b66; 0x4e60]] (VStr (js "zh-CN")) (fun _ => 3) 0 [] initial)
  = Ok [ResultEntry.mk (VStr [0x5b66; 0x4e60])
          (js "/play/" ++ [0x5b66; 0x4e60] ++ js "-zh-CN") false] /\
  Forall2 (fun text e =>
             ResultEntry.text e = text /\
             exists cacheKey,
               generateCacheKey digest_stub text (VStr (js "zh-CN"))
               = Ok cacheKey /\
               ResultEntry.audioUrl e = js "/play/" ++ cacheKey)
    [VStr [0x5b66; 0x4e60]]
    [ResultEntry.mk (VStr [0x5b66; 0x4e60])
       (js "/play/" ++ [0x5b66; 0x4e60] ++ js "-zh-CN") false].
Proof.
  assert (H : fst (resolve_texts AUDIO_CONFIG digest_stub params_stub date_stub
                     [VStr [0x5b66; 0x4e60]] (VStr (js "zh-CN")) (fun _ => 3)
                     0 [] initial)
              = Ok [ResultEntry.mk (VStr [0x5b66; 0x4e60])
                      (js "/play/" ++ [0x5b66; 0x4e60] ++ js "-zh-CN") false])
    by reflexivity.
  split; [exact H|].
  exact (pass_results_reference_keys AUDIO_CONFIG digest_stub params_stub
           date_stub _ _ _ _ _ H).
Defined.

(** X8.  Run from the same state, the pass of the first variant and the
    pass of the second variant leave the same cache, the same registry
    and the same metrics, and leave the job with the same status, the same
    error and results that have the same texts and the same [cached]
    flags: the two differ in the [audioUrl] of the results only. *)
Theorem preload_pass_variants_agree (cfg : config)
    (md5_hex : jsstring -> result jsstring)
    (URLSearchParams_toString : list (jsstring * jsstring) -> result jsstring)
    (toISOString : Z -> jsstring)
    (im : immediate) (date : nat -> Z) (now : Z) (s : state) :
  exists s1 s2,
    resolution_pass cfg md5_hex URLSearchParams_toString toISOString
      im date now s = (Ok tt, s1) /\
    resolution_pass_direct cfg md5_hex URLSearchParams_toString toISOString
      im date now s = (Ok tt, s2) /\
    audioCache s1 = audioCache s2 /\
    preloadQueue s1 = preloadQueue s2 /\
    requestMetrics s1 = requestMetrics s2 /\
    PreloadData.status (heap s1 (imm_preloadData im))
    = PreloadData.status (heap s2 (imm_preloadData im)) /\
    PreloadData.error (heap s1 (imm_preloadData im))
    = PreloadData.error (heap s2 (imm_preloadData im)) /\
    map ResultEntry.text (PreloadData.results (heap s1 (imm_preloadData im)))
    = map ResultEntry.text (PreloadData.results (heap s2 (imm_preloadData im))) /\
    map ResultEntry.cached (PreloadData.results (heap s1 (imm_preloadData im)))
    = map ResultEntry.cached
        (PreloadData.results (heap s2 (imm_preloadData im))).
Proof.
  rewrite resolution_pass_spec, resolution_pass_direct_spec.
  destruct (resolve_texts_variants cfg md5_hex URLSearchParams_toString
              toISOString (imm_language im) date (imm_texts im) 0%nat [] [] s
              eq_refl eq_refl) as [Hs Hr].
  destruct (resolve_texts _ _ _ _ _ _ _ _ _ _) as [[a|m] s1];
    destruct (resolve_texts_direct _ _ _ _ _ _ _ _ _ _) as [[b|m'] s2];
    cbn [fst snd] in *; try contradiction; subst;
    eexists _, _; (split; [reflexivity|]); (split; [reflexivity|]);
    rewrite !heap_update_same; cbn; tauto.
Qed.

(** X9.  [POST /cache/clear] answers 200 with the size the cache had,
    empties the cache and the registry, and touches neither the metrics
    nor the jobs nor the queued passes.  In the state it leaves, every
    status query and every [GET /play] answers 404 and changes nothing,
    and the pass that is next in the queue, which the clearing has not
    cancelled, leaves the registry empty when it runs. *)
Theorem cache_clear_forgets_jobs (startTime now : Z) (s : state) :
  exists resp s',
    post_cache_clear startTime now s = (Ok resp, s') /\
    status_code resp = 200 /\
    prop (js "previousCacheSize") (props_of resp)
    = Some (VNum (Z.of_nat (JsMap.size (audioCache s)))) /\
    audioCache s' = [] /\ preloadQueue s' = [] /\
    requestMetrics s' = requestMetrics s /\ same_jobs s s' /\
    (forall preloadId t0 t1 t2,
       get_preload preloadId t0 t1 t2 s'
       = (Ok (json 404
                [(js "error", VStr (js "Preload request not found"));
                 (js "preloadId", VStr preloadId)]), s')) /\
    (forall cacheKey up,
       get_play cacheKey up s'
       = (Ok [res_json (json 404
                [(js "error", VStr (js "Audio not found"));
                 (js "details", VStr (js "The requested audio has not been cached or has expired"))])],
          s')) /\
    (forall cfg md5_hex URLSearchParams_toString toISOString date now',
       preloadQueue
         (snd (run_immediate cfg md5_hex URLSearchParams_toString toISOString
                 date now' s')) = []).
Proof.
  eexists _, _. split; [reflexivity|].
  split; [reflexivity|]. split; [reflexivity|]. split; [reflexivity|].
  split; [reflexivity|]. split; [reflexivity|]. split; [repeat split|].
  split; [|split].
  - intros. now rewrite get_preload_spec.
  - intros. now apply get_play_absent.
  - intros. rewrite run_immediate_eq.
    cbn [with_preloadQueue with_audioCache immediates].
    destruct (immediates s) as [|im rest]; [reflexivity|].
    match goal with
    | |- context [resolve_texts ?c ?m ?u ?t ?texts ?l ?d ?i ?acc ?s0] =>
        destruct (resolve_texts_spec c m u t l d texts i acc s0) as [Hf _];
        destruct (resolve_texts c m u t texts l d i acc s0) as [[rs|e] s1]
    end; cbn [snd] in *; cbn [heap_update preloadQueue]; rewrite Hf;
      reflexivity.
Qed.

Lemma terminal_kept (cfg : config) (md5_hex : jsstring -> result jsstring)
    (URLSearchParams_toString : list (jsstring * jsstring) -> result jsstring)
    (toISOString : Z -> jsstring) (r : ref) : forall es s,
  passes_pending s ->
  terminal (PreloadData.status (heap s r)) = true ->
  heap (fold_left (step cfg md5_hex URLSearchParams_toString toISOString) es s)
       r
  = heap s r.
Proof.
  induction es as [|e es IH]; intros s Hp Ht; [reflexivity|].
  cbn [fold_left].
  destruct (step_passes_pending cfg md5_hex URLSearchParams_toString
              toISOString s e r Hp) as [Hp' Hkeep].
  rewrite IH; [now apply Hkeep | exact Hp' | now rewrite Hkeep].
Qed.

(** X10.  A job that has reached [completed] or [failed] is final: no
    request, no pass and no sweep that the service runs afterwards
    changes its object, whatever becomes of its entry in the registry. *)
Theorem terminal_job_is_final (cfg : config)
    (md5_hex : jsstring -> result jsstring)
    (URLSearchParams_toString : list (jsstring * jsstring) -> result jsstring)
    (toISOString : Z -> jsstring) (es later : list event) (r : ref) :
  terminal
    (PreloadData.status
       (heap (run cfg md5_hex URLSearchParams_toString toISOString es) r))
  = true ->
  heap (run cfg md5_hex URLSearchParams_toString toISOString (es ++ later)) r
  = heap (run cfg md5_hex URLSearchParams_toString toISOString es) r.
Proof.
  intros Ht. rewrite run_app.
  apply terminal_kept; [apply run_passes_pending | exact Ht].
Qed.

Lemma terminal_job_is_final_witness :
  terminal
    (PreloadData.status
       (heap (run AUDIO_CONFIG digest_stub params_stub date_stub
                finished_events) 0%nat)) = true /\
  PreloadData.status
    (heap (run AUDIO_CONFIG digest_stub params_stub date_stub
             (finished_events
              ++ [PostPreload one_text_body (js "job-1") 5 6 6 7;
                  RunImmediate (fun _ => 8) 9; Sweep 400000]))
          0%nat)
  = completed.
Proof.
  assert (H : terminal
                (PreloadData.status
                   (heap (run AUDIO_CONFIG digest_stub params_stub date_stub
                            finished_events) 0%nat)) = true) by reflexivity.
  split; [exact H|].
  rewrite (terminal_job_is_final AUDIO_CONFIG digest_stub params_stub
             date_stub finished_events
             [PostPreload one_text_body (js "job-1") 5 6 6 7;
              RunImmediate (fun _ => 8) 9; Sweep 400000] 0%nat H).
  reflexivity.
Defined.

(** X11.  In every state the service reaches, each record of the cache
    holds a valid text and a supported language, sits under the cache key
    derived from them, and holds the locator generated for them. *)
Theorem cached_records_derived (cfg : config)
    (md5_hex : jsstring -> result jsstring)
    (URLSearchParams_toString : list (jsstring * jsstring) -> result jsstring)
    (toISOString : Z -> jsstring) (es : list event)
    (cacheKey : jsstring) (cachedData : CacheRecord.t) :
  In (cacheKey, cachedData)
     (audioCache (run cfg md5_hex URLSearchParams_toString toISOString es)) ->
  isValidChineseText (CacheRecord.text cachedData) = true /\
  includes (SUPPORTED_LANGUAGES cfg) (CacheRecord.language cachedData) = true /\
  generateCacheKey md5_hex (CacheRecord.text cachedData)
    (CacheRecord.language cachedData) = Ok cacheKey /\
  generateAudioUrl cfg URLSearchParams_toString (CacheRecord.text cachedData)
    (CacheRecord.language cachedData) = Ok (CacheRecord.audioUrl cachedData).
Proof.
  intros Hin.
  destruct (run_records cfg md5_hex URLSearchParams_toString toISOString es)
    as [Hc _].
  rewrite Forall_forall in Hc. exact (Hc _ Hin).
Qed.

Lemma cached_records_derived_witness :
  In (greeting_key, greeting_record)
     (audioCache (run AUDIO_CONFIG digest_stub params_stub date_stub
                    [PostAudio greeting_body 0 3 2])) /\
  generateCacheKey digest_stub (CacheRecord.text greeting_record)
    (CacheRecord.language greeting_record) = Ok greeting_key.
Proof.
  assert (H : In (greeting_key, greeting_record)
                 (audioCache (run AUDIO_CONFIG digest_stub params_stub
                                date_stub [PostAudio greeting_body 0 3 2])))
    by (left; reflexivity).
  split; [exact H|].
  exact (proj1 (proj2 (proj2
    (cached_records_derived AUDIO_CONFIG digest_stub params_stub date_stub
       [PostAudio greeting_body 0 3 2] greeting_key greeting_record H)))).
Defined.

(** X12.  The key of a request is the digest of one string, the text and
    the language joined by a hyphen.  With the languages the file
    supports that string determines both: two valid requests hand the
    same string to the digest only when they have the same text and the
    same language. *)
Theorem cache_key_input_determines_request
    (text1 text2 language1 language2 : value) :
  isValidChineseText text1 = true ->
  isValidChineseText text2 = true ->
  includes (SUPPORTED_LANGUAGES AUDIO_CONFIG) language1 = true ->
  includes (SUPPORTED_LANGUAGES AUDIO_CONFIG) language2 = true ->
  exists input1 input2,
    (forall md5_hex : jsstring -> result jsstring,
       generateCacheKey md5_hex text1 language1 = md5_hex input1) /\
    (forall md5_hex : jsstring -> result jsstring,
       generateCacheKey md5_hex text2 language2 = md5_hex input2) /\
    (input1 = input2 -> text1 = text2 /\ language1 = language2).
Proof.
  intros Hv1 Hv2 Hl1 Hl2.
  apply isValidChineseText_spec in Hv1. destruct Hv1 as (s1 & -> & _).
  apply isValidChineseText_spec in Hv2. destruct Hv2 as (s2 & -> & _).
  apply supported_language in Hl1. apply supported_language in Hl2.
  destruct Hl1 as [-> | ->]; destruct Hl2 as [-> | ->];
    eexists _, _; (split; [intros md5_hex; reflexivity|]);
    (split; [intros md5_hex; reflexivity|]);
    intros Heq; apply app_inj_same_length in Heq; try reflexivity;
    destruct Heq as [-> Hl]; try discriminate; split; reflexivity.
Qed.

Lemma cache_key_input_determines_request_witness :
  exists input1 input2,
    (forall md5_hex : jsstring -> result jsstring,
       generateCacheKey md5_hex (VStr [0x4f60; 0x597d]) (VStr (js "zh-CN"))
       = md5_hex input1) /\
    (forall md5_hex : jsstring -> result jsstring,
       generateCacheKey md5_hex (VStr [0x4f60; 0x597d]) (VStr (js "zh-TW"))
       = md5_hex input2) /\
    (input1 = input2 ->
     VStr [0x4f60; 0x597d] = VStr [0x4f60; 0x597d] /\
     VStr (js "zh-CN") = VStr (js "zh-TW")).
Proof.
  exact (cache_key_input_determines_request
           (VStr [0x4f60; 0x597d]) (VStr [0x4f60; 0x597d])
           (VStr (js "zh-CN")) (VStr (js "zh-TW"))
           eq_refl eq_refl eq_refl eq_refl).
Defined.

(** X13.  A batch accepted while no other pass is queued can be polled:
    before its pass runs the status query answers 200 with status
    [processing] and no results and leaves the job in the registry,
    whatever the clock; once the event loop has run the pass the query
    answers 200 with a terminal status, with one result per text in
    order when the job is completed and none when it failed. *)
Theorem preload_round_trip (cfg : config)
    (md5_hex : jsstring -> result jsstring)
    (URLSearchParams_toString : list (jsstring * jsstring) -> result jsstring)
    (toISOString : Z -> jsstring)
    (req_body : list (jsstring * value)) (preloadId : jsstring)
    (startTime jobStart date0 now0 : Z) (date : nat -> Z) (now : Z)
    (s : state) :
  immediates s = [] ->
  invalid_batch cfg req_body = false ->
  exists texts s1 s2 job,
    field "texts" req_body = VArr texts /\
    snd (post_preload cfg toISOString req_body preloadId startTime jobStart
           date0 now0 s) = s1 /\
    snd (run_immediate cfg md5_hex URLSearchParams_toString toISOString
           date now s1) = s2 /\
    (forall t0 t1 t2,
       get_preload preloadId t0 t1 t2 s1
       = (Ok (json 200 (status_body preloadId (heap s1 (allocated s)) (t1 - t0))),
          s1)) /\
    PreloadData.status (heap s1 (allocated s)) = processing /\
    PreloadData.results (heap s1 (allocated s)) = [] /\
    (forall t0 t1 t2,
       fst (get_preload preloadId t0 t1 t2 s2)
       = Ok (json 200 (status_body preloadId job (t1 - t0)))) /\
    job = heap s2 (allocated s) /\
    terminal (PreloadData.status job) = true /\
    (PreloadData.status job = completed ->
     map ResultEntry.text (PreloadData.results job) = texts) /\
    (PreloadData.status job = failed -> PreloadData.results job = []).
Proof.
  intros Hq Hi.
  destruct (post_preload_accepts cfg toISOString req_body preloadId
              startTime jobStart date0 now0 s Hi) as (texts & props & Ht & E).
  rewrite E. cbn [snd].
  set (language := field_default "language" (DEFAULT_LANGUAGE cfg) req_body)
    in *.
  set (s1 := accepted toISOString texts language preloadId startTime jobStart
               date0 now0 s).
  destruct (accepted_jobs toISOString texts language preloadId startTime
              jobStart date0 now0 s) as (Hh & Him & Ha & _ & Hreg).
  fold s1 in Hh, Him, Ha, Hreg.
  assert (Hjob : heap s1 (allocated s)
                 = PreloadData.mk preloadId texts language processing []
                     jobStart (toISOString date0) None None None)
    by (rewrite Hh; now rewrite Nat.eqb_refl).
  assert (Hget : JsMap.get preloadId (preloadQueue s1) = Some (allocated s))
    by (rewrite Hreg; apply get_set_same).
  rewrite Hq in Him. cbn [app] in Him.
  exists texts, s1,
    (snd (run_immediate cfg md5_hex URLSearchParams_toString toISOString
            date now s1)),
    (heap (snd (run_immediate cfg md5_hex URLSearchParams_toString toISOString
                  date now s1)) (allocated s)).
  split; [exact Ht|]. split; [reflexivity|]. split; [reflexivity|].
  split.
  { intros t0 t1 t2. rewrite get_preload_spec, Hget, Hjob. reflexivity. }
  split; [now rewrite Hjob|]. split; [now rewrite Hjob|].
  rewrite run_immediate_eq, Him.
  cbn [imm_texts imm_language imm_preloadData].
  destruct (resolve_texts_spec cfg md5_hex URLSearchParams_toString
              toISOString language date texts 0%nat []
              (with_immediates [] s1)) as [Hframe Htexts].
  destruct (resolve_texts _ _ _ _ texts _ _ _ _ _) as [[rs|message] s1'];
    cbn [fst snd] in *.
  - split.
    { intros t0 t1 t2. rewrite get_preload_spec.
      cbn [heap_update preloadQueue]. rewrite Hframe.
      cbn [with_audioCache with_immediates preloadQueue]. rewrite Hget.
      cbn [fst]. reflexivity. }
    split; [reflexivity|].
    rewrite heap_update_same. cbn. split; [reflexivity|].
    split; [intros _; exact Htexts | discriminate].
  - split.
    { intros t0 t1 t2. rewrite get_preload_spec.
      cbn [heap_update preloadQueue]. rewrite Hframe.
      cbn [with_audioCache with_immediates preloadQueue]. rewrite Hget.
      cbn [fst]. reflexivity. }
    split; [reflexivity|].
    rewrite heap_update_same. cbn. split; [reflexivity|].
    split; [discriminate|]. intros _.
    rewrite (only_cache_heap _ _ Hframe). cbn [with_immediates heap].
    now rewrite Hjob.
Qed.

Lemma preload_round_trip_witness :
  immediates initial = [] /\
  invalid_batch AUDIO_CONFIG one_text_body = false /\
  exists texts, field "texts" one_text_body = VArr texts.
Proof.
  split; [reflexivity | split; [reflexivity|]].
  destruct (preload_round_trip AUDIO_CONFIG digest_stub params_stub date_stub
              one_text_body (js "job-1") 0 1 1 2 (fun _ => 3) 4 initial
              eq_refl eq_refl)
    as (texts & _ & _ & _ & Ht & _).
  now exists texts.
Defined.

Lemma filter_idempotent {A} (f : A -> bool) (l : list A) :
  filter f (filter f l) = filter f l.
Proof.
  induction l as [|x l IH]; [reflexivity|]. cbn [filter].
  destruct (f x) eqn:E; [cbn [filter]; rewrite E, IH|]; auto.
Qed.

(** X14.  The sweep changes the registry only: it keeps, in their order,
    exactly the entries whose job was created at most 300000 ms before the
    clock, and leaves the cache, the metrics, the jobs and the queued
    passes as they were.  A second sweep at the same clock removes
    nothing more. *)
Theorem sweep_keeps_young_jobs (now : Z) (s : state) :
  JsMap.wf (preloadQueue s) ->
  snd (sweep now s)
  = with_preloadQueue
      (filter (fun e => now - PreloadData.startTime (heap s (snd e)) <=? 300000)
              (preloadQueue s)) s /\
  snd (sweep now (snd (sweep now s))) = snd (sweep now s).
Proof.
  intros Hwf.
  assert (Hf : filter (sweep_keeps now s) (preloadQueue s)
               = filter (fun e => now - PreloadData.startTime (heap s (snd e))
                                  <=? 300000) (preloadQueue s)).
  { apply filter_ext. intros e. unfold sweep_keeps, age.
    rewrite Z.leb_antisym. reflexivity. }
  rewrite sweep_only_queue, swept_filter by exact Hwf.
  split; [now rewrite Hf|].
  rewrite sweep_only_queue, swept_filter
    by (cbn [with_preloadQueue preloadQueue]; now apply wf_filter).
  cbn [with_preloadQueue preloadQueue].
  change (sweep_keeps now
            (mkState (audioCache s)
               (filter (sweep_keeps now s) (preloadQueue s))
               (requestMetrics s) (heap s) (allocated s) (immediates s)))
    with (sweep_keeps now s).
  now rewrite filter_idempotent.
Qed.

Lemma sweep_keeps_young_jobs_witness :
  JsMap.wf (preloadQueue (snd accepted_example)) /\
  preloadQueue (snd (sweep 300001 (snd accepted_example)))
  = [(js "job-1", 0%nat)].
Proof.
  assert (Hwf : JsMap.wf (preloadQueue (snd accepted_example)))
    by (repeat constructor; intros []).
  split; [exact Hwf|].
  rewrite (proj1 (sweep_keeps_young_jobs 300001 (snd accepted_example) Hwf)).
  reflexivity.
Defined.

(** X15.  With a capacity of at least 5, in every state the service
    reaches the keys of the cache are pairwise distinct and the cache
    holds at most [MAX_CACHE_SIZE] records, and the ids of the registry
    are pairwise distinct. *)
Theorem reachable_cache_bounded (cfg : config)
    (md5_hex : jsstring -> result jsstring)
    (URLSearchParams_toString : list (jsstring * jsstring) -> result jsstring)
    (toISOString : Z -> jsstring) (es : list event) :
  (5 <= MAX_CACHE_SIZE cfg)%nat ->
  NoDup (JsMap.keys
           (audioCache (run cfg md5_hex URLSearchParams_toString toISOString es)))
  /\ (JsMap.size
        (audioCache (run cfg md5_hex URLSearchParams_toString toISOString es))
      <= MAX_CACHE_SIZE cfg)%nat
  /\ NoDup (JsMap.keys
              (preloadQueue
                 (run cfg md5_hex URLSearchParams_toString toISOString es))).
Proof.
  intros Hcap.
  destruct (run_invariant cfg md5_hex URLSearchParams_toString toISOString
              Hcap es) as ((Hwf & Hsize & _) & Hq).
  repeat split; assumption.
Qed.

Lemma reachable_cache_bounded_witness :
  (5 <= MAX_CACHE_SIZE AUDIO_CONFIG)%nat /\
  (JsMap.size
     (audioCache (run AUDIO_CONFIG digest_stub params_stub date_stub
                    [PostAudio greeting_body 0 3 2]))
   <= MAX_CACHE_SIZE AUDIO_CONFIG)%nat.
Proof.
  assert (H : (5 <= MAX_CACHE_SIZE AUDIO_CONFIG)%nat) by (cbn; lia).
  split; [exact H|].
  exact (proj1 (proj2
    (reachable_cache_bounded AUDIO_CONFIG digest_stub params_stub date_stub
       [PostAudio greeting_body 0 3 2] H))).
Defined.
